(** * A recorder for WebDriver sessions: model and verification

    The development embeds the three Python sources of the repository:

    - [metaprog_utils.py]: interface mirroring ([create_forwarded_method],
      [create_proxy_interface]) and forwarding properties
      ([create_proxy_property]);
    - [webdriver_recorder.py]: the [Recorder] and the two proxies
      [RecordingWebElement] and [RecordingWebDriver];
    - [basic_script.py]: a client script, which drives the proxies through
      [get], the lookups, [click] and [send_keys] and ends with [close] and
      [export]; it has no definitions of its own and is embedded as one
      computation, [basic_script].

    The embedding follows CPython 3: [/] on numbers is true division and yields
    a float, [str] is a sequence of code points, a [dict] keeps insertion order
    and a mutation performed before an exception is raised stays in place. *)

From Stdlib Require Import ZArith NArith Floats String Ascii List Lia DecimalString.
From stdpp Require Import gmap strings list.

Set Default Proof Using "Type".
#[local] Set Warnings "-register-all".

(** ** Python values *)

Module Py.

(** A [str] is a sequence of code points. *)
Definition str := list N.

(** A string literal of the source, all of whose characters are ASCII. *)
Definition lit (s : string) : str := map N_of_ascii (list_ascii_of_string s).

(** Exceptions raised by the interpreter, and [WebDriverException] for
    everything the underlying library raises. *)
Inductive exn :=
| KeyError (key : str)
| AttributeError (name : string)
| TypeError
| OverflowError
| UnicodeEncodeError
| UnicodeDecodeError
| RecursionError
| WebDriverException (msg : string).

(** Outcome of a call: a value, or a raised exception. *)
Inductive result (A : Type) :=
| Ok (a : A)
| Raise (e : exn).
Arguments Ok {A} a.
Arguments Raise {A} e.

Definition is_ok {A} (r : result A) : bool :=
  match r with Ok _ => true | Raise _ => false end.

(** *** [str.encode('utf-8')] and [bytes.decode('utf-8')] *)

Definition is_surrogate (c : N) : bool := ((55296 <=? c) && (c <=? 57343))%N.

Definition utf8_encode_cp (c : N) : result (list N) :=
  if (c <? 128)%N then Ok [c]
  else if (c <? 2048)%N then Ok [192 + c / 64; 128 + c mod 64]%N
  else if (c <? 65536)%N then
    if is_surrogate c then Raise UnicodeEncodeError
    else Ok [224 + c / 4096; 128 + (c / 64) mod 64; 128 + c mod 64]%N
  else if (c <? 1114112)%N then
    Ok [240 + c / 262144; 128 + (c / 4096) mod 64; 128 + (c / 64) mod 64;
        128 + c mod 64]%N
  else Raise UnicodeEncodeError.

Fixpoint utf8_encode (s : str) : result (list N) :=
  match s with
  | [] => Ok []
  | c :: s' =>
      match utf8_encode_cp c with
      | Raise e => Raise e
      | Ok bs =>
          match utf8_encode s' with
          | Raise e => Raise e
          | Ok bs' => Ok (bs ++ bs')
          end
      end
  end.

Definition is_cont (b : N) : bool := ((128 <=? b) && (b <? 192))%N.

Fixpoint utf8_decode (bs : list N) : result str :=
  let cons c r := match r with Ok s => Ok (c :: s) | Raise e => Raise e end in
  match bs with
  | [] => Ok []
  | b0 :: r0 =>
      if (b0 <? 128)%N then cons b0 (utf8_decode r0)
      else if (b0 <? 194)%N then Raise UnicodeDecodeError
      else if (b0 <? 224)%N then
        match r0 with
        | b1 :: r1 =>
            if is_cont b1
            then cons ((b0 - 192) * 64 + (b1 - 128))%N (utf8_decode r1)
            else Raise UnicodeDecodeError
        | _ => Raise UnicodeDecodeError
        end
      else if (b0 <? 240)%N then
        match r0 with
        | b1 :: b2 :: r2 =>
            let c := ((b0 - 224) * 4096 + (b1 - 128) * 64 + (b2 - 128))%N in
            if is_cont b1 && is_cont b2 && (2048 <=? c)%N && negb (is_surrogate c)
            then cons c (utf8_decode r2)
            else Raise UnicodeDecodeError
        | _ => Raise UnicodeDecodeError
        end
      else if (b0 <? 245)%N then
        match r0 with
        | b1 :: b2 :: b3 :: r3 =>
            let c := ((b0 - 240) * 262144 + (b1 - 128) * 4096
                      + (b2 - 128) * 64 + (b3 - 128))%N in
            if is_cont b1 && is_cont b2 && is_cont b3
               && (65536 <=? c)%N && (c <? 1114112)%N
            then cons c (utf8_decode r3)
            else Raise UnicodeDecodeError
        | _ => Raise UnicodeDecodeError
        end
      else Raise UnicodeDecodeError
  end.

(** [val.encode('utf-8').decode('utf-8')] *)
Definition encode_decode (s : str) : result str :=
  match utf8_encode s with
  | Ok bs => utf8_decode bs
  | Raise e => Raise e
  end.

(** A string that [encode('utf-8')] accepts: code points below 0x110000,
    none of them a surrogate. *)
Definition encodable_cp (c : N) : bool := (c <? 1114112)%N && negb (is_surrogate c).
Definition encodable (s : str) : bool := forallb encodable_cp s.

(** *** Values *)

Inductive val :=
| VNone
| VBool (b : bool)
| VInt (z : Z)
| VFloat (f : float)
| VStr (s : str)
| VList (l : list val)
| VDict (d : list (str * val)).

(** A [dict] with [str] keys, in insertion order. *)
Definition dict := list (str * val).

Fixpoint dict_get (k : str) (d : dict) : option val :=
  match d with
  | [] => None
  | (k', v) :: d' => if decide (k' = k) then Some v else dict_get k d'
  end.

(** [d[k] = v]: an existing key keeps its place, a new one goes last. *)
Fixpoint dict_set (k : str) (v : val) (d : dict) : dict :=
  match d with
  | [] => [(k, v)]
  | (k', v') :: d' =>
      if decide (k' = k) then (k', v) :: d' else (k', v') :: dict_set k v d'
  end.

(** Truth value of an object, as tested by [if]. *)
Definition truthy (v : val) : bool :=
  match v with
  | VNone => false
  | VBool b => b
  | VInt z => negb (z =? 0)%Z
  | VFloat f => negb (PrimFloat.eqb f 0%float)
  | VStr s => negb (bool_decide (s = []))
  | VList l => negb (bool_decide (l = []))
  | VDict d => match d with [] => false | _ => true end
  end.

(** *** Numbers *)

(** [int.__str__] *)
Definition int_str (z : Z) : str := lit (NilZero.string_of_int (Z.to_int z)).

(** [bool.__str__] *)
Definition bool_str (b : bool) : str := lit (if b then "True" else "False").

(** Conversion of an [int] scaled by a power of two to the nearest [float]
    (ties to even); an [int] out of the range of [float] raises. *)
Definition float_of_scaled (z e : Z) : result float :=
  let f := SF2Prim (binary_normalize prec emax z e false) in
  if PrimFloat.is_infinity f then Raise OverflowError else Ok f.

(** [a / 2] for the literal [2]. *)
Definition truediv2 (a : val) : result val :=
  match a with
  | VInt z => match float_of_scaled z (-1) with
              | Ok f => Ok (VFloat f)
              | Raise e => Raise e
              end
  | VBool b => Ok (VFloat (if b then 0.5 else 0)%float)
  | VFloat f => Ok (VFloat (f / 2)%float)
  | _ => Raise TypeError
  end.

(** [a + b] where [b] is a [float]. *)
Definition add_float (a : val) (b : float) : result val :=
  match a with
  | VInt z => match float_of_scaled z 0 with
              | Ok f => Ok (VFloat (f + b)%float)
              | Raise e => Raise e
              end
  | VBool c => Ok (VFloat ((if c then 1 else 0) + b)%float)
  | VFloat f => Ok (VFloat (f + b)%float)
  | _ => Raise TypeError
  end.

(** [a + b / 2], evaluated left to right: [a], then [b / 2], then the sum. *)
Definition add_half (a b : val) : result val :=
  match truediv2 b with
  | Ok (VFloat h) => add_float a h
  | Ok _ => Raise TypeError
  | Raise e => Raise e
  end.

End Py.
Import Py.

(** ** What the interpreter and the underlying library provide *)

(** The browser session and the objects of the underlying library are kept
    abstract, and so is the formatting of a [float] by [json]
    ([json.encoder] uses [float.__repr__] and the names of the special
    values). *)
Class Host := {
  World : Type;    (** state of the browser session *)
  Elem : Type;     (** an element object handed out by the underlying library *)
  Drv : Type;      (** the underlying driver object *)
  floatstr : float -> string;
}.

(** ** [json.dumps], with its default arguments *)

Module Json.

Definition chr (n : N) : string := String (ascii_of_N n) EmptyString.

Definition hex_digit (n : N) : string :=
  chr (if (n <? 10)%N then 48 + n else 87 + n)%N.

Definition hex4 (n : N) : string :=
  hex_digit (n / 4096 mod 16) +:+ hex_digit (n / 256 mod 16)
  +:+ hex_digit (n / 16 mod 16) +:+ hex_digit (n mod 16).

Definition backslash : string := chr 92.

Definition u_escape (n : N) : string := backslash +:+ "u" +:+ hex4 n.

(** [ensure_ascii] is on: everything outside [' '..'~'] is escaped, a code
    point beyond the basic plane as a surrogate pair. *)
Definition escape_cp (c : N) : string :=
  if (c =? 34)%N then backslash +:+ chr 34
  else if (c =? 92)%N then backslash +:+ backslash
  else if (c =? 8)%N then backslash +:+ "b"
  else if (c =? 12)%N then backslash +:+ "f"
  else if (c =? 10)%N then backslash +:+ "n"
  else if (c =? 13)%N then backslash +:+ "r"
  else if (c =? 9)%N then backslash +:+ "t"
  else if ((32 <=? c) && (c <=? 126))%N then chr c
  else if (c <? 65536)%N then u_escape c
  else u_escape (55296 + (c - 65536) / 1024 mod 1024)
       +:+ u_escape (56320 + (c - 65536) mod 1024).

Definition encode_str (s : str) : string :=
  chr 34 +:+ fold_right (fun c acc => escape_cp c +:+ acc) (chr 34) s.

Fixpoint join (sep : string) (l : list string) : string :=
  match l with
  | [] => ""
  | [x] => x
  | x :: l' => x +:+ sep +:+ join sep l'
  end.

Definition encode_int (z : Z) : string := NilZero.string_of_int (Z.to_int z).

Fixpoint dumps `{Host} (v : val) : string :=
  match v with
  | VNone => "null"
  | VBool b => if b then "true" else "false"
  | VInt z => encode_int z
  | VFloat f => floatstr f
  | VStr s => encode_str s
  | VList l => "[" +:+ join ", " (List.map dumps l) +:+ "]"
  | VDict d =>
      "{" +:+ join ", " (List.map (fun kv => encode_str (fst kv) +:+ ": "
                                             +:+ dumps (snd kv)) d) +:+ "}"
  end.

End Json.

(** ** State and exceptions

    A computation runs on a state and ends with a value or an exception; the
    state reached is returned in both cases, so that what was written before
    an exception was raised is still there afterwards. *)

Definition M (S A : Type) : Type := S -> S * result A.

Definition ret {S A} (a : A) : M S A := fun s => (s, Ok a).

Definition raise {S A} (e : exn) : M S A := fun s => (s, Raise e).

Definition bind {S A B} (c : M S A) (k : A -> M S B) : M S B :=
  fun s =>
    match c s with
    | (s', Ok a) => k a s'
    | (s', Raise e) => (s', Raise e)
    end.

Notation "'let*' x ':=' c 'in' k" := (bind c (fun x => k))
  (at level 10, x name, c at level 100, k at level 200).
Notation "c ';;;' k" := (bind c (fun _ => k))
  (at level 100, k at level 200, right associativity).

(** The result of a computation that cannot change the state. *)
Definition of_result {S A} (r : S -> result A) : M S A := fun s => (s, r s).

Definition modify {S} (f : S -> S) : M S unit := fun s => (f s, Ok tt).

Fixpoint mapM {S A B} (f : A -> M S B) (l : list A) : M S (list B) :=
  match l with
  | [] => ret []
  | a :: l' => let* b := f a in let* bs := mapM f l' in ret (b :: bs)
  end.

(** ** The state of a [Recorder]

    [_pages] holds references to page objects and [_current_page] is a
    reference too: [close] makes the two share an object. [heap] gives the
    contents of every [dict] that was ever bound to [_current_page], by
    identity, and [next] is the first identity not yet in use. *)

Record Recorder := {
  heap : nat -> dict;
  next : nat;
  _pages : list nat;
  _current_page : nat;
}.

(** The state of a session: the recorder and the browser. *)
Record St `{Host} := {
  recorder : Recorder;
  world : World;
}.

Section State.
Context `{Host}.

Definition with_recorder (f : Recorder -> Recorder) : M St unit :=
  modify (fun s => {| recorder := f (recorder s); world := world s |}).

Definition with_world {A} (c : M World A) : M St A :=
  fun s =>
    let (w', r) := c (world s) in ({| recorder := recorder s; world := w' |}, r).

Definition read_world {A} (f : World -> result A) : M St A :=
  of_result (fun s => f (world s)).

Definition read_recorder {A} (f : Recorder -> A) : M St A :=
  fun s => (s, Ok (f (recorder s))).

(** The pages of the trace, by value. *)
Definition trace (r : Recorder) : list dict := List.map (heap r) (_pages r).

(** [d[k]] *)
Definition getitem (k : string) (d : dict) : result val :=
  match dict_get (lit k) d with
  | Some v => Ok v
  | None => Raise (KeyError (lit k))
  end.

Definition store (a : nat) (d : dict) (r : Recorder) : Recorder :=
  {| heap := fun a' => if decide (a' = a) then d else heap r a';
     next := next r; _pages := _pages r; _current_page := _current_page r |}.

(** A new [dict] object bound to [_current_page]. *)
Definition bind_current_page (d : dict) (r : Recorder) : Recorder :=
  {| heap := fun a' => if decide (a' = next r) then d else heap r a';
     next := S (next r); _pages := _pages r; _current_page := next r |}.

(** [self._pages.append(self._current_page)] *)
Definition append_current_page (r : Recorder) : Recorder :=
  {| heap := heap r; next := next r;
     _pages := _pages r ++ [_current_page r];
     _current_page := _current_page r |}.

End State.

(** ** Objects of the proxy layer *)

Section Objects.
Context `{Host}.

(** [RecordingWebDriver]. Every proxy of a session refers to the one
    [Recorder] of the state, so the attribute [_recorder] needs no field. *)
Record RecordingWebDriver := { driver : Drv }.

(** [RecordingWebElement]; [O] is the type of the objects it may wrap.
    [_original_methods] holds the two lookups as they were found on
    [element] when it was wrapped. *)
Record RecordingWebElement_ (O : Type) := {
  element : O;
  _driver : RecordingWebDriver;
  _original_find_element : val -> val -> M St O;
  _original_find_elements : val -> val -> M St (list O);
}.

(** What a lookup may hand back: [None], an object of the underlying
    library, or a proxy. *)
Inductive obj :=
| ONone
| ORaw (e : Elem)
| OProxy (p : RecordingWebElement_ obj).

Definition RecordingWebElement := RecordingWebElement_ obj.

Definition obj_truthy (o : obj) : bool :=
  match o with ONone => false | _ => true end.

Definition is_proxy (o : obj) : bool :=
  match o with OProxy _ => true | _ => false end.

End Objects.

Arguments element {_ O} _.
Arguments _driver {_ O} _.
Arguments _original_find_element {_ O} _.
Arguments _original_find_elements {_ O} _.

(** The operations of the underlying library and of the interpreter on its
    objects. [getattr_find_element o] is [getattr(o, 'find_element')], the
    lookup currently bound on [o]; [rebind name o] is [setattr(o, name, m)]
    for the bound method [m] of the proxy that wraps [o]. *)
Class Selenium `{Host} := {
  raw_location : Elem -> World -> result dict;
  raw_size : Elem -> World -> result dict;
  raw_click : Elem -> M World unit;
  raw_send_keys : Elem -> list val -> M World unit;
  getattr_find_element : obj -> World -> result (val -> val -> M St obj);
  getattr_find_elements : obj -> World -> result (val -> val -> M St (list obj));
  rebind : string -> obj -> World -> World;
  drv_get : Drv -> str -> M World val;
  drv_find_element : Drv -> val -> val -> M World obj;
  drv_find_elements : Drv -> val -> val -> M World (list obj);
  drv_current_url : Drv -> World -> result str;
}.

(** ** [class Recorder] *)

Section RecorderOps.
Context `{Selenium}.

(** The state that [start] installs: [_pages = []] and [_current_page = {}]. *)
Definition fresh_recorder : Recorder :=
  {| heap := fun _ => []; next := 1; _pages := []; _current_page := 0 |}.

Definition start (driver_ : Drv) : M St RecordingWebDriver :=
  with_recorder (fun _ => fresh_recorder) ;;;
  ret {| driver := driver_ |}.

Definition close : M St unit :=
  with_recorder append_current_page.

Definition new_page (url : str) : dict :=
  [(lit "url", VStr url); (lit "recorded_events", VList [])].

Definition on_navigate_to_url (url : str) : M St unit :=
  let* current := read_recorder (fun r => heap r (_current_page r)) in
  (if truthy (VDict current) then with_recorder append_current_page else ret tt) ;;;
  with_recorder (bind_current_page (new_page url)).

(** [element.location] and [element.size]: on a proxy they are the properties
    made by [create_proxy_property], which read the attribute of the wrapped
    object. *)
Fixpoint attr_location (o : obj) (w : World) : result dict :=
  match o with
  | ONone => Raise (AttributeError "location")
  | ORaw e => raw_location e w
  | OProxy p => attr_location (element p) w
  end.

Fixpoint attr_size (o : obj) (w : World) : result dict :=
  match o with
  | ONone => Raise (AttributeError "size")
  | ORaw e => raw_size e w
  | OProxy p => attr_size (element p) w
  end.

Definition _get_event_location (element_ : obj) : M St dict :=
  let* element_location := read_world (attr_location element_) in
  let* element_size := read_world (attr_size element_) in
  let* x := of_result (fun _ => getitem "x" element_location) in
  let* width := of_result (fun _ => getitem "width" element_size) in
  let* cx := of_result (fun _ => add_half x width) in
  let* y := of_result (fun _ => getitem "y" element_location) in
  let* height := of_result (fun _ => getitem "height" element_size) in
  let* cy := of_result (fun _ => add_half y height) in
  ret [(lit "x", cx); (lit "y", cy)].

(** [self._current_page['recorded_events'].append(event)] *)
Definition append_event (event : dict) : M St unit :=
  let* r := read_recorder id in
  let page := heap r (_current_page r) in
  let* events := of_result (fun _ => getitem "recorded_events" page) in
  match events with
  | VList l =>
      with_recorder
        (store (_current_page r)
           (dict_set (lit "recorded_events") (VList (l ++ [VDict event])) page))
  | _ => raise (AttributeError "append")
  end.

Definition _add_event (element_ : obj) (event : dict) : M St unit :=
  let* location := _get_event_location element_ in
  let event := dict_set (lit "location") (VDict location) event in
  append_event event.

Definition on_click (element_ : obj) : M St unit :=
  _add_event element_ [(lit "event_type", VStr (lit "click"))].

Definition on_send_keys (element_ : obj) (text : str) : M St unit :=
  _add_event element_
    [(lit "event_type", VStr (lit "send_keys")); (lit "text", VStr text)].

Definition export : M St string :=
  read_recorder (fun r => Json.dumps (VList (List.map VDict (trace r)))).

End RecorderOps.

(** ** [class RecordingWebElement] and [class RecordingWebDriver] *)

Module Element.
Section Ops.
Context `{Selenium}.

(** [RecordingWebElement(recorder, driver, element)]: the two lookups of
    [element] are saved and rebound, one name after the other. The rest of
    the constructor mirrors the remaining interface of [element] onto the proxy
    (see [Metaprog] below), which leaves the methods of the class alone. *)
Definition new_RecordingWebElement (driver_ : RecordingWebDriver) (element_ : obj)
  : M St RecordingWebElement :=
  let* find_element_ := read_world (getattr_find_element element_) in
  with_world (modify (rebind "find_element" element_)) ;;;
  let* find_elements_ := read_world (getattr_find_elements element_) in
  with_world (modify (rebind "find_elements" element_)) ;;;
  ret {| element := element_; _driver := driver_;
         _original_find_element := find_element_;
         _original_find_elements := find_elements_ |}.

Definition wrap (driver_ : RecordingWebDriver) (element_ : obj) : M St obj :=
  let* p := new_RecordingWebElement driver_ element_ in ret (OProxy p).

Definition find_element (self : RecordingWebElement) (by_ value : val) : M St obj :=
  let* element_ := _original_find_element self by_ value in
  if obj_truthy element_ then wrap (_driver self) element_ else ret element_.

Definition find_elements (self : RecordingWebElement) (by_ value : val)
  : M St (list obj) :=
  let* elements_list := _original_find_elements self by_ value in
  match elements_list with
  | [] => ret elements_list
  | _ => mapM (wrap (_driver self)) elements_list
  end.

(** [o.click()], for whatever [o] is: the method of the underlying element,
    or [RecordingWebElement.click] with [self] the proxy. *)
Fixpoint call_click (o : obj) : M St unit :=
  match o with
  | ONone => raise (AttributeError "click")
  | ORaw e => with_world (raw_click e)
  | OProxy self =>
      on_click (OProxy self) ;;;
      call_click (element self) ;;;
      let* url := read_world (drv_current_url (driver (_driver self))) in
      on_navigate_to_url url
  end.

Definition click (self : RecordingWebElement) : M St unit :=
  call_click (OProxy self).

(** The loop of [send_keys] that builds [text]. *)
Definition key_text (v : val) : result str :=
  match v with
  | VInt z => encode_decode (int_str z)
  | VBool b => encode_decode (bool_str b)
  | VStr s => encode_decode s
  | _ => Raise (AttributeError "encode")
  end.

Fixpoint keys_text (text : str) (value : list val) : result str :=
  match value with
  | [] => Ok text
  | v :: value' =>
      match key_text v with
      | Ok t => keys_text (text ++ t) value'
      | Raise e => Raise e
      end
  end.

Fixpoint call_send_keys (o : obj) (value : list val) : M St unit :=
  match o with
  | ONone => raise (AttributeError "send_keys")
  | ORaw e => with_world (raw_send_keys e value)
  | OProxy self =>
      let* text := of_result (fun _ => keys_text [] value) in
      on_send_keys (OProxy self) text ;;;
      call_send_keys (element self) value
  end.

Definition send_keys (self : RecordingWebElement) (value : list val) : M St unit :=
  call_send_keys (OProxy self) value.

End Ops.
End Element.

Module Driver.
Section Ops.
Context `{Selenium}.

Definition get (self : RecordingWebDriver) (url : str) : M St val :=
  on_navigate_to_url url ;;;
  with_world (drv_get (driver self) url).

Definition find_element (self : RecordingWebDriver) (by_ value : val)
  : M St obj :=
  let* element_ := with_world (drv_find_element (driver self) by_ value) in
  if obj_truthy element_ then Element.wrap self element_ else ret element_.

Definition find_elements (self : RecordingWebDriver) (by_ value : val)
  : M St (list obj) :=
  let* elements_list := with_world (drv_find_elements (driver self) by_ value) in
  match elements_list with
  | [] => ret elements_list
  | _ => mapM (Element.wrap self) elements_list
  end.

(** The fixed-strategy lookups; the strategies are the constants of
    [selenium.webdriver.common.by.By]. *)
Definition By_ID := VStr (lit "id").
Definition By_XPATH := VStr (lit "xpath").
Definition By_LINK_TEXT := VStr (lit "link text").
Definition By_PARTIAL_LINK_TEXT := VStr (lit "partial link text").
Definition By_NAME := VStr (lit "name").
Definition By_TAG_NAME := VStr (lit "tag name").
Definition By_CLASS_NAME := VStr (lit "class name").
Definition By_CSS_SELECTOR := VStr (lit "css selector").

Definition find_element_by_id self id_ := find_element self By_ID id_.
Definition find_elements_by_id self id_ := find_elements self By_ID id_.
Definition find_element_by_xpath self xpath := find_element self By_XPATH xpath.
Definition find_elements_by_xpath self xpath := find_elements self By_XPATH xpath.
Definition find_element_by_link_text self link_text :=
  find_element self By_LINK_TEXT link_text.
Definition find_elements_by_link_text self text :=
  find_elements self By_LINK_TEXT text.
Definition find_element_by_partial_link_text self link_text :=
  find_element self By_PARTIAL_LINK_TEXT link_text.
Definition find_elements_by_partial_link_text self link_text :=
  find_elements self By_PARTIAL_LINK_TEXT link_text.
Definition find_element_by_name self name := find_element self By_NAME name.
Definition find_elements_by_name self name := find_elements self By_NAME name.
Definition find_element_by_tag_name self name := find_element self By_TAG_NAME name.
Definition find_elements_by_tag_name self name := find_elements self By_TAG_NAME name.
Definition find_element_by_class_name self name :=
  find_element self By_CLASS_NAME name.
Definition find_elements_by_class_name self name :=
  find_elements self By_CLASS_NAME name.
Definition find_element_by_css_selector self css_selector :=
  find_element self By_CSS_SELECTOR css_selector.
Definition find_elements_by_css_selector self css_selector :=
  find_elements self By_CSS_SELECTOR css_selector.

End Ops.
End Driver.

(** ** [metaprog_utils.py]

    Objects are attribute tables, kept in a store by identity, so that the
    source and the target of a mirroring may be one object. A callable is a
    method of the object's own or a method made by [create_forwarded_method],
    which closes over the target and the name and looks the operation up when
    it is called. *)

Module Metaprog.

Inductive attr :=
| Data (v : val)
| Method (f : list val -> list (string * val) -> result val)
| Forwarded (from_ to : nat) (func_name : string).

Definition store := nat -> gmap string attr.

Definition callable (a : attr) : bool :=
  match a with Data _ => false | _ => true end.

Definition getattr (o : nat) (name : string) : M store attr :=
  of_result (fun st : store =>
    match st o !! name with
    | Some a => Ok a
    | None => Raise (AttributeError name)
    end).

Definition hasattr (o : nat) (name : string) : M store bool :=
  of_result (fun st : store => Ok (bool_decide (is_Some (st o !! name)))).

Definition setattr (o : nat) (name : string) (a : attr) : M store unit :=
  modify (fun st : store =>
    fun o' => if decide (o' = o) then <[name := a]> (st o') else st o').

(** [dir(o)]: the names of the attributes of [o]. Python sorts them; the
    order plays no role in what [create_proxy_interface] leaves behind. *)
Definition dir (o : nat) : M store (list string) :=
  of_result (fun st : store => Ok (map_to_list (st o)).*1).

(** [attr_name.startswith('_')] *)
Definition startswith_underscore (name : string) : bool :=
  match name with
  | String c _ => bool_decide (c = "_"%char)
  | EmptyString => false
  end.

Definition create_forwarded_method (from_ to : nat) (func_name : string) : attr :=
  Forwarded from_ to func_name.

Fixpoint for_each {S A} (l : list A) (body : A -> M S unit) : M S unit :=
  match l with
  | [] => ret tt
  | a :: l' => body a ;;; for_each l' body
  end.

Definition mirror_one (from_ to : nat) (ignore_list : list string)
  (override_existing : bool) (attr_name : string) : M store unit :=
  if negb (startswith_underscore attr_name)
     && negb (bool_decide (attr_name ∈ ignore_list))
  then
    let* a := getattr to attr_name in
    if callable a then
      let* present := hasattr from_ attr_name in
      if override_existing || negb present
      then setattr from_ attr_name (create_forwarded_method from_ to attr_name)
      else ret tt
    else ret tt
  else ret tt.

Definition create_proxy_interface (from_ to : nat)
  (ignore_list : option (list string)) (override_existing : bool) : M store unit :=
  let ignore_list := match ignore_list with Some l => l | None => [] end in
  let* names := dir to in
  for_each names (mirror_one from_ to ignore_list override_existing).

(** A call of [a] with positional and keyword arguments. [depth] is the room left on the call stack:
    a forwarded method uses one frame and calls what the target has under the
    name at that moment. *)
Fixpoint call (depth : nat) (st : store) (a : attr) (args : list val)
  (kwargs : list (string * val)) : result val :=
  match a with
  | Data _ => Raise TypeError
  | Method f => f args kwargs
  | Forwarded _ to func_name =>
      match depth with
      | O => Raise RecursionError
      | S depth' =>
          match st to !! func_name with
          | Some a' => call depth' st a' args kwargs
          | None => Raise (AttributeError func_name)
          end
      end
  end.

(** The names [create_proxy_interface] binds on [from_], read off the store
    it starts from. *)
Definition mirrored (st : store) (from_ to : nat) (ignore_list : list string)
  (override_existing : bool) (name : string) : bool :=
  negb (startswith_underscore name)
  && negb (bool_decide (name ∈ ignore_list))
  && match st to !! name with Some a => callable a | None => false end
  && (override_existing || negb (bool_decide (is_Some (st from_ !! name)))).

End Metaprog.

(** ** [create_proxy_property] and the properties of the two proxy classes

    Objects here have a class and attributes of their own, and an attribute
    holds a plain value or a reference to an object. A class has attributes
    too (those it inherits included); the ones [create_proxy_property] makes
    are properties, which the interpreter consults before the attributes of
    the object itself. *)

Module Props.

Inductive ref :=
| Plain (v : val)
| Obj (o : nat).

(** An attribute of a class: a property made by [create_proxy_property], with
    the two names its getter and setter close over, or anything else. *)
Inductive class_attr :=
| Property (property_name target_name : string) (is_settable : bool)
| Other (v : ref).

Record Heap := {
  class_of : nat -> nat;
  fields : nat -> gmap string ref;
  classes : nat -> gmap string class_attr;
}.

Definition create_proxy_property (property_name target_name : string)
  (is_settable : bool) : class_attr :=
  Property property_name target_name is_settable.

Definition set_field (o : nat) (name : string) (v : ref) (h : Heap) : Heap :=
  {| class_of := class_of h;
     fields := fun o' => if decide (o' = o) then <[name := v]> (fields h o')
                         else fields h o';
     classes := classes h |}.

Definition set_class_attr (c : nat) (name : string) (a : class_attr) (h : Heap)
  : Heap :=
  {| class_of := class_of h;
     fields := fields h;
     classes := fun c' => if decide (c' = c) then <[name := a]> (classes h c')
                          else classes h c' |}.

Section Attributes.

(** [getattr] on a value of a built-in type. *)
Variable builtin_getattr : val -> string -> result ref.

(** [getattr(o, name)]. A property of the class runs [_proxy_get], which
    takes a frame of the stack: [getattr(getattr(self, target_name),
    property_name)]. *)
Fixpoint getattr (depth : nat) (h : Heap) (o : nat) (name : string) : result ref :=
  match classes h (class_of h o) !! name with
  | Some (Property property_name target_name _) =>
      match depth with
      | O => Raise RecursionError
      | S depth' =>
          match getattr depth' h o target_name with
          | Ok (Obj t) => getattr depth' h t property_name
          | Ok (Plain v) => builtin_getattr v property_name
          | Raise e => Raise e
          end
      end
  | Some (Other v) =>
      match fields h o !! name with
      | Some v' => Ok v'
      | None => Ok v
      end
  | None =>
      match fields h o !! name with
      | Some v => Ok v
      | None => Raise (AttributeError name)
      end
  end.

(** [setattr(o, name, v)]. A property with a setter runs [_proxy_set]:
    [setattr(getattr(self, target_name), property_name, val)]; one without
    cannot be set. A value of a built-in type takes no attribute. *)
Fixpoint setattr (depth : nat) (o : nat) (name : string) (v : ref) (h : Heap)
  : Heap * result unit :=
  match classes h (class_of h o) !! name with
  | Some (Property property_name target_name is_settable) =>
      if is_settable then
        match depth with
        | O => (h, Raise RecursionError)
        | S depth' =>
            match getattr depth' h o target_name with
            | Ok (Obj t) => setattr depth' t property_name v h
            | Ok (Plain _) => (h, Raise (AttributeError property_name))
            | Raise e => (h, Raise e)
            end
        end
      else (h, Raise (AttributeError name))
  | _ => (set_field o name v h, Ok tt)
  end.

End Attributes.

(** [hasattr] and [setattr] on a class. *)
Definition hasattr_class (c : nat) (name : string) : M Heap bool :=
  of_result (fun h => Ok (bool_decide (is_Some (classes h c !! name)))).

Definition setattr_class (c : nat) (name : string) (a : class_attr) : M Heap unit :=
  modify (set_class_attr c name a).

(** [self.__class__] *)
Definition class_ (self : nat) : M Heap nat :=
  of_result (fun h => Ok (class_of h self)).

Module Element.

Definition _READONLY_PROPERTIES : list string :=
  [ "tag_name"; "text"; "location_once_scrolled_into_view"; "size"; "location";
    "parent"; "id"; "rect"; "screenshot_as_base64"; "screenshot_as_png" ].

(** The last loop of [RecordingWebElement.__init__]. *)
Definition set_properties (self : nat) : M Heap unit :=
  Metaprog.for_each _READONLY_PROPERTIES (fun attr =>
    let* cls := class_ self in
    setattr_class cls attr (create_proxy_property attr "element" false)).

End Element.

Module Driver.

Definition _READONLY_PROPERTIES : list string :=
  [ "application_cache"; "current_url"; "current_window_handle";
    "desired_capabilities"; "log_types"; "name"; "page_source"; "title";
    "window_handles"; "switch_to"; "mobile"; "application_cache"; "log_types" ].

Definition _SETTABLE_PROPERTIES : list string := [ "orientation"; "file_detector" ].

(** The two loops that end [RecordingWebDriver.__init__]. *)
Definition set_properties (self : nat) : M Heap unit :=
  Metaprog.for_each _READONLY_PROPERTIES (fun attr =>
    let* cls := class_ self in
    let* present := hasattr_class cls attr in
    if negb present
    then let* cls := class_ self in
         setattr_class cls attr (create_proxy_property attr "driver" false)
    else ret tt) ;;;
  Metaprog.for_each _SETTABLE_PROPERTIES (fun attr =>
    let* cls := class_ self in
    let* present := hasattr_class cls attr in
    if negb present
    then let* cls := class_ self in
         setattr_class cls attr (create_proxy_property attr "driver" true)
    else ret tt).

End Driver.

End Props.

(** ** [basic_script.py]

    The script is a client of the recorder. Besides the operations above it
    uses [webdriver.Firefox()], two methods of the driver that the driver
    proxy forwards ([execute_script] and [quit]), [str.format] and [print].
    The text of a [float] and of a container is left to the interpreter. *)

Class ScriptHost `{Selenium} := {
  Firefox : M World Drv;
  drv_execute_script : Drv -> str -> M World val;
  drv_quit : Drv -> M World val;
  py_str : val -> str;
}.

(** The state of a run of the script: the session and what was printed. *)
Record Run `{Host} := {
  session : St;
  stdout : list string;
}.

Section Script.
Context `{ScriptHost}.

Definition in_session {A} (c : M St A) : M Run A :=
  fun r =>
    let (s', a) := c (session r) in ({| session := s'; stdout := stdout r |}, a).

Definition print (line : string) : M Run unit :=
  modify (fun r => {| session := session r; stdout := stdout r ++ [line] |}).

(** [try: body finally: final]: [final] runs whatever [body] did; an
    exception of [final] replaces the outcome of [body]. *)
Definition try_finally {S A} (body : M S A) (final : M S unit) : M S A :=
  fun s =>
    let (s1, r) := body s in
    match final s1 with
    | (s2, Ok _) => (s2, r)
    | (s2, Raise e) => (s2, Raise e)
    end.

(** [a - n] for an [int] literal [n]. *)
Definition sub_int (a : val) (n : Z) : result val :=
  match a with
  | VInt z => Ok (VInt (z - n))
  | VBool b => Ok (VInt ((if b then 1 else 0) - n))
  | VFloat f => Ok (VFloat (f - SF2Prim (binary_normalize prec emax n 0 false))%float)
  | _ => Raise TypeError
  end.

(** The text [str.format] puts in the place of a [{}]. *)
Definition format_value (v : val) : str :=
  match v with
  | VNone => lit "None"
  | VBool b => bool_str b
  | VInt z => int_str z
  | VStr s => s
  | _ => py_str v
  end.

(** ["scrollTo({},{})".format(a, b)] *)
Definition format_scrollTo (a b : val) : str :=
  lit "scrollTo(" ++ format_value a ++ lit "," ++ format_value b ++ lit ")".

Definition the_url : str := lit "http://il.pycon.org/2016/".

Definition script_body (browser : RecordingWebDriver) : M Run unit :=
  in_session (Driver.get browser the_url) ;;;
  let* signup_link :=
    in_session (Driver.find_element_by_link_text browser
                  (VStr (lit "sign up to our list"))) in
  let* link_location := in_session (read_world (attr_location signup_link)) in
  let* x := in_session (of_result (fun _ => getitem "x" link_location)) in
  let* y := in_session (of_result (fun _ => getitem "y" link_location)) in
  let* y' := in_session (of_result (fun _ => sub_int y 70)) in
  let scroll_script := format_scrollTo x y' in
  in_session (with_world (drv_execute_script (driver browser) scroll_script)) ;;;
  in_session (Element.call_click signup_link) ;;;
  let* button :=
    in_session (Driver.find_element_by_class_name browser (VStr (lit "btn-waitlist"))) in
  in_session (Element.call_click button) ;;;
  let* field :=
    in_session (Driver.find_element_by_id browser
                  (VStr (lit "waitlisted_person_name"))) in
  in_session (Element.call_send_keys field [VStr (lit "Selenium WebDriver")]).

Definition script_finally (browser : RecordingWebDriver) : M Run unit :=
  in_session close ;;;
  in_session (with_world (drv_quit (driver browser))) ;;;
  let* out := in_session export in
  print out.

Definition basic_script : M Run unit :=
  let* driver_ := in_session (with_world Firefox) in
  let* browser := in_session (start driver_) in
  try_finally (script_body browser) (script_finally browser).

End Script.

(** ** Running computations *)

Definition exec {S A} (c : M S A) (s : S) : S := fst (c s).

Definition outcome {S A} (c : M S A) (s : S) : result A := snd (c s).

(** The notifications a [Recorder] receives between [start] and [close]. *)
Inductive notification `{Host} :=
| Navigate (url : str)
| Click (element_ : obj)
| SendKeys (element_ : obj) (text : str).

Definition notify `{Selenium} (n : notification) : M St unit :=
  match n with
  | Navigate url => on_navigate_to_url url
  | Click o => on_click o
  | SendKeys o text => on_send_keys o text
  end.

(** The state after a sequence of notifications, each of which may have
    raised: the caller goes on with the state it left. *)
Definition notify_all `{Selenium} (ns : list notification) (s : St) : St :=
  fold_left (fun s n => exec (notify n) s) ns s.

(** Identities in use are below [next]. *)
Definition wf (r : Recorder) : Prop :=
  Forall (fun a => a < next r) (_pages r) /\ _current_page r < next r.

(** Between [start] and [close], the open page is not one of the pages of
    the trace. *)
Definition open_page_apart (r : Recorder) : Prop :=
  wf r /\ _current_page r ∉ _pages r.

(** A page is open when [_current_page] has the key the events go under. *)
Definition page_open (r : Recorder) : Prop :=
  exists l, dict_get (lit "recorded_events") (heap r (_current_page r)) = Some (VList l).

Definition no_page_open (r : Recorder) : Prop :=
  heap r (_current_page r) = [].

(** The events of the open page. *)
Definition current_events (r : Recorder) : option val :=
  dict_get (lit "recorded_events") (heap r (_current_page r)).

(** The state [_add_event] leaves when the event is recorded. *)
Definition recorded `{Host} (loc : dict) (l : list val) (event : dict) (s : St) : St :=
  let r := recorder s in
  {| recorder :=
       store (_current_page r)
         (dict_set (lit "recorded_events")
            (VList (l ++ [VDict (dict_set (lit "location") (VDict loc) event)]))
            (heap r (_current_page r))) r;
     world := world s |}.

(** The values [send_keys] turns into text, and the text of each: an [int]
    in decimal, a [bool] by its name, a [str] that can be encoded as it is. *)
Definition key_ok (v : val) : bool :=
  match v with
  | VInt _ | VBool _ => true
  | VStr s => encodable s
  | _ => false
  end.

Definition key_str (v : val) : str :=
  match v with
  | VInt z => int_str z
  | VBool b => bool_str b
  | VStr s => s
  | _ => []
  end.

(** The events as the recorder builds them, before the location is added. *)
Definition click_event : dict := [(lit "event_type", VStr (lit "click"))].

Definition send_keys_event (text : str) : dict :=
  [(lit "event_type", VStr (lit "send_keys")); (lit "text", VStr text)].

(** [r] is a proxy made by driver proxy [d] around [o]. *)
Definition wraps `{Host} (d : RecordingWebDriver) (o r : obj) : Prop :=
  exists p, r = OProxy p /\ element p = o /\ _driver p = d.

(** What a single lookup hands back for the result [o] of the underlying
    search: a proxy around it, or [o] itself when it counts as no result. *)
Definition wrapped_or_none `{Host} (d : RecordingWebDriver) (o r : obj) : Prop :=
  if obj_truthy o then wraps d o r else r = o.

(** Attribute lookups of the two names never raise. *)
Definition lookups_bound `{Selenium} : Prop :=
  forall o w, is_ok (getattr_find_element o w) = true
              /\ is_ok (getattr_find_elements o w) = true.

(** The urls of the navigations among the notifications, in order. *)
Definition navigated `{Host} (ns : list notification) : list str :=
  flat_map (fun n => match n with Navigate url => [url] | _ => [] end) ns.

(** [page['url']], when the page has the key. *)
Definition page_url (page : dict) : option val := dict_get (lit "url") page.

(** The page [_current_page] refers to. *)
Definition current_page (r : Recorder) : dict := heap r (_current_page r).

(** The event [_add_event] appends: [event] with its location. *)
Definition located (loc event : dict) : val :=
  VDict (dict_set (lit "location") (VDict loc) event).

(** The event a notification adds to the open page in state [s]: none for a
    navigation, none when the location of the element cannot be computed. *)
Definition event_of `{Selenium} (s : St) (n : notification) : option val :=
  match n with
  | Navigate _ => None
  | Click o =>
      match outcome (_get_event_location o) s with
      | Ok loc => Some (located loc click_event)
      | Raise _ => None
      end
  | SendKeys o text =>
      match outcome (_get_event_location o) s with
      | Ok loc => Some (located loc (send_keys_event text))
      | Raise _ => None
      end
  end.

(** The fixed-strategy lookups of [RecordingWebDriver], those of one element
    and those of several. *)
Definition single_lookups `{Selenium}
  : list (RecordingWebDriver -> val -> M St obj) :=
  [ Driver.find_element_by_id; Driver.find_element_by_xpath;
    Driver.find_element_by_link_text; Driver.find_element_by_partial_link_text;
    Driver.find_element_by_name; Driver.find_element_by_tag_name;
    Driver.find_element_by_class_name; Driver.find_element_by_css_selector ].

Definition multi_lookups `{Selenium}
  : list (RecordingWebDriver -> val -> M St (list obj)) :=
  [ Driver.find_elements_by_id; Driver.find_elements_by_xpath;
    Driver.find_elements_by_link_text; Driver.find_elements_by_partial_link_text;
    Driver.find_elements_by_name; Driver.find_elements_by_tag_name;
    Driver.find_elements_by_class_name; Driver.find_elements_by_css_selector ].

(** What a lookup of the driver proxy [d] may hand back: the no-result value,
    or a proxy made by [d] around something found. *)
Definition handed_out `{Host} (d : RecordingWebDriver) (r : obj) : Prop :=
  r = ONone
  \/ exists p, r = OProxy p /\ _driver p = d /\ obj_truthy (element p) = true.

(** A value arithmetic accepts. *)
Definition numeric (v : val) : bool :=
  match v with VInt _ | VBool _ | VFloat _ => true | _ => false end.

(** The exception [send_keys] raises on an argument it cannot turn into
    text: a [str] fails in [encode], anything else has no [encode]. *)
Definition bad_key_exn (v : val) : exn :=
  match v with
  | VStr _ => UnicodeEncodeError
  | _ => AttributeError "encode"
  end.

(** The loops that bind properties, in one: over [names], binding every name
    ([keep = false]) or only the names the class does not have
    ([keep = true]). *)
Definition bind_properties (keep : bool) (names : list string) (target_name : string)
    (is_settable : bool) (self : nat) : M Props.Heap unit :=
  Metaprog.for_each names (fun attr =>
    if keep then
      let* cls := Props.class_ self in
      let* present := Props.hasattr_class cls attr in
      if negb present
      then let* cls := Props.class_ self in
           Props.setattr_class cls attr (Props.create_proxy_property attr target_name is_settable)
      else ret tt
    else
      let* cls := Props.class_ self in
      Props.setattr_class cls attr (Props.create_proxy_property attr target_name is_settable)).

(** [c] keeps [P]: from a state with [P] it ends, normally or not, in a
    state with [P]. *)
Definition preserves {S A} (P : S -> Prop) (c : M S A) : Prop :=
  forall s, P s -> P (exec c s).

(** The first page of the session, finalized or still open, is the page of
    [url]. *)
Definition first_page_is (url : str) (r : Recorder) : Prop :=
  open_page_apart r
  /\ exists rest,
       List.map page_url (trace r ++ [current_page r]) = Some (VStr url) :: rest.

(** A page as the recorder builds it. *)
Definition page_with (url : str) (events : list val) : dict :=
  [(lit "url", VStr url); (lit "recorded_events", VList events)].

(** The browser cooperates with the script run on driver [d]: every
    navigation, lookup, script, click and key stroke goes through, every
    lookup finds an element of the underlying library, and every element
    reports its place. *)
Record cooperative `{ScriptHost} (d : Drv) : Prop := {
  coop_get : forall url w, is_ok (snd (drv_get d url w)) = true;
  coop_find : forall by_ value w,
    exists e, snd (drv_find_element d by_ value w) = Ok (ORaw e);
  coop_lookups : lookups_bound;
  coop_location : forall e (s : St),
    is_ok (outcome (_get_event_location (ORaw e)) s) = true;
  coop_script : forall script w, is_ok (snd (drv_execute_script d script w)) = true;
  coop_click : forall e w, snd (raw_click e w) = Ok tt;
  coop_url : forall w, is_ok (drv_current_url d w) = true;
  coop_send_keys : forall e value w, snd (raw_send_keys e value w) = Ok tt;
  coop_quit : forall w, is_ok (snd (drv_quit d w)) = true;
}.

(** ** A small session, for the scenarios

    The world is the horizontal scroll offset of the page and the keys typed
    so far: a click scrolls the page by one, [send_keys] types its arguments.
    Every element is 100 by 40 and sits at [(10 + offset, 20)]; every lookup
    finds element [0], and a lookup of several finds [0] and [1]. *)

Module Toy.

#[export] Instance host : Host :=
  {| World := Z * list val; Elem := nat; Drv := unit; floatstr := fun _ => "0.0" |}.

Definition location (e : nat) (w : Z * list val) : result dict :=
  Ok [(lit "x", VInt (10 + fst w)); (lit "y", VInt 20)].

Definition size (e : nat) (w : Z * list val) : result dict :=
  Ok [(lit "height", VInt 40); (lit "width", VInt 100)].

#[export] Instance selenium : Selenium :=
  {| raw_location := location;
     raw_size := size;
     raw_click := fun _ w => ((fst w + 1, snd w)%Z, Ok tt);
     raw_send_keys := fun _ value w => ((fst w, snd w ++ value), Ok tt);
     getattr_find_element := fun _ _ => Ok (fun _ _ => ret (ORaw 0));
     getattr_find_elements := fun _ _ => Ok (fun _ _ => ret [ORaw 0; ORaw 1]);
     rebind := fun _ _ w => w;
     drv_get := fun _ _ w => (w, Ok VNone);
     drv_find_element := fun _ _ _ w => (w, Ok (ORaw 0));
     drv_find_elements := fun _ _ _ w => (w, Ok [ORaw 0; ORaw 1]);
     drv_current_url := fun _ _ => Ok (lit "http://example/") |}.

Definition s0 : St := {| recorder := fresh_recorder; world := (0%Z, []) |}.

(** The session after [start] and a first navigation: a page is open and has
    no events. *)
Definition s1 : St := exec (start tt ;;; on_navigate_to_url (lit "a")) s0.

Definition the_driver : RecordingWebDriver := {| driver := tt |}.

Definition e0 : obj := ORaw 0.
Definition e1 : obj := ORaw 1.

Definition proxy (e : nat) : RecordingWebElement :=
  {| element := ORaw e; _driver := the_driver;
     _original_find_element := fun _ _ => ret (ORaw 0);
     _original_find_elements := fun _ _ => ret [ORaw 0; ORaw 1] |}.

End Toy.

(** The same session with elements that have gone stale: every element from
    [5] on reports no place and has lost [find_elements], and element [4]
    reports a size without a width. The names the constructor of a proxy
    replaces are logged after the keys typed. *)
Module Flaky.
Import Toy.

Definition stale (o : obj) : bool :=
  match o with ORaw e => (5 <=? e)%nat | _ => false end.

Definition selenium : Selenium :=
  {| raw_location := fun e w =>
       if (5 <=? e)%nat then Raise (WebDriverException "stale element reference")
       else Toy.location e w;
     raw_size := fun e w =>
       if (e =? 4)%nat then Ok [(lit "height", VInt 40)] else Toy.size e w;
     raw_click := fun _ w => ((fst w + 1, snd w)%Z, Ok tt);
     raw_send_keys := fun _ value w => ((fst w, snd w ++ value), Ok tt);
     getattr_find_element := fun _ _ => Ok (fun _ _ => ret (ORaw 0));
     getattr_find_elements := fun o _ =>
       if stale o then Raise (AttributeError "find_elements")
       else Ok (fun _ _ => ret [ORaw 0; ORaw 1]);
     rebind := fun name _ w => (fst w, snd w ++ [VStr (lit name)]);
     drv_get := fun _ _ w => (w, Raise (WebDriverException "unreachable"));
     drv_find_element := fun _ _ _ w => (w, Ok ONone);
     drv_find_elements := fun _ _ _ w => (w, Ok []);
     drv_current_url := fun _ _ => Ok (lit "http://example/") |}.

Definition e4 : obj := ORaw 4.
Definition e5 : obj := ORaw 5.

End Flaky.

(** The script on a session in which nothing moves (every element stays at
    (10, 20)), and on the session with stale elements, where the first
    navigation fails already and [quit] fails too. *)
Module ScriptToy.
Import Toy.

Definition still : Selenium :=
  {| raw_location := fun _ _ => Ok [(lit "x", VInt 10); (lit "y", VInt 20)];
     raw_size := Toy.size;
     raw_click := fun _ w => ((fst w + 1, snd w)%Z, Ok tt);
     raw_send_keys := fun _ value w => ((fst w, snd w ++ value), Ok tt);
     getattr_find_element := fun _ _ => Ok (fun _ _ => ret (ORaw 0));
     getattr_find_elements := fun _ _ => Ok (fun _ _ => ret [ORaw 0; ORaw 1]);
     rebind := fun _ _ w => w;
     drv_get := fun _ _ w => (w, Ok VNone);
     drv_find_element := fun _ _ _ w => (w, Ok (ORaw 0));
     drv_find_elements := fun _ _ _ w => (w, Ok [ORaw 0; ORaw 1]);
     drv_current_url := fun _ w =>
       Ok (if (fst w =? 1)%Z then lit "http://example/signup" else lit "http://example/form") |}.

Definition script : @ScriptHost host still :=
  @Build_ScriptHost host still
    (fun w => (w, Ok tt))
    (fun _ _ w => (w, Ok VNone))
    (fun _ w => (w, Ok VNone))
    (fun _ => lit "0.0").

Definition flaky : @ScriptHost host Flaky.selenium :=
  @Build_ScriptHost host Flaky.selenium
    (fun w => (w, Ok tt))
    (fun _ _ w => (w, Ok VNone))
    (fun _ w => (w, Raise (WebDriverException "no session")))
    (fun _ => lit "0.0").

Definition r0 : Run := {| session := s0; stdout := [] |}.

End ScriptToy.

(** A source with a [click] of its own and a target with four public
    attributes, one of them data, and a private method. *)
Module MirrorToy.
Import Metaprog.

Definition own_click : attr := Method (fun _ _ => Ok (VStr (lit "proxy click"))).
Definition target_click : attr := Method (fun _ _ => Ok (VStr (lit "real click"))).
Definition target_clear : attr := Method (fun _ _ => Ok VNone).
Definition target_quit : attr := Method (fun _ _ => Raise (WebDriverException "gone")).
Definition target_echo : attr :=
  Method (fun args _ => Ok (VList args)).

Definition source : gmap string attr := {[ "click" := own_click ]}.

Definition target : gmap string attr :=
  {[ "click" := target_click; "clear" := target_clear; "quit" := target_quit;
     "echo" := target_echo; "text" := Data (VStr (lit "hello"));
     "_execute" := target_clear ]}.

Definition st0 : store :=
  fun o => match o with 0 => source | 1 => target | _ => ∅ end.

End MirrorToy.

(** Two proxies and what they wrap, for the properties: object [0] is an
    element proxy around element [1], object [2] a driver proxy around driver
    [3]; the class of the driver proxy has an attribute [name] of its own. *)
Module PropToy.
Import Props.

Definition builtin (v : val) (name : string) : result ref :=
  Raise (AttributeError name).

Definition h0 : Heap :=
  {| class_of := fun o => 10 + o;
     fields := fun o =>
       match o with
       | 0 => {[ "element" := Obj 1; "text" := Plain (VStr (lit "stale")) ]}
       | 1 => {[ "text" := Plain (VStr (lit "hello")) ]}
       | 2 => {[ "driver" := Obj 3 ]}
       | 3 => {[ "title" := Plain (VStr (lit "PyCon")) ]}
       | _ => ∅
       end;
     classes := fun c =>
       match c with
       | 12 => {[ "name" := Other (Plain (VStr (lit "recording"))) ]}
       | _ => ∅
       end |}.

End PropToy.

(** * Properties *)

(** ** The recorder *)

Section RecorderFacts.
Context `{Selenium}.

Lemma export_spec (s : St) :
  export s = (s, Ok (Json.dumps (VList (List.map VDict (trace (recorder s)))))).
Proof. reflexivity. Qed.

Lemma close_spec (s : St) :
  close s = ({| recorder := append_current_page (recorder s); world := world s |}, Ok tt).
Proof. reflexivity. Qed.

Lemma on_navigate_to_url_spec (url : str) (s : St) :
  on_navigate_to_url url s =
    ({| recorder :=
          bind_current_page (new_page url)
            (if truthy (VDict (heap (recorder s) (_current_page (recorder s))))
             then append_current_page (recorder s) else recorder s);
        world := world s |}, Ok tt).
Proof.
  unfold on_navigate_to_url, bind, read_recorder.
  destruct s as [r w]; simpl.
  destruct (heap r (_current_page r)); reflexivity.
Qed.

(** C1: two navigation notifications in a row after [start], then [close]:
    the trace is the page of the first url, with no events, followed by the
    page of the second. *)
Theorem navigations_in_a_row (driver_ : Drv) (u1 u2 : str) (s : St) :
  let session :=
    start driver_ ;;; on_navigate_to_url u1 ;;; on_navigate_to_url u2 ;;; close in
  outcome session s = Ok tt
  /\ trace (recorder (exec session s))
     = [ [(lit "url", VStr u1); (lit "recorded_events", VList [])];
         [(lit "url", VStr u2); (lit "recorded_events", VList [])] ].
Proof.
  destruct s as [r w]. split; reflexivity.
Qed.

(** C10: [close] right after [start] appends the empty current page: the
    trace has one entry, an empty record, and [export] prints it. *)
Theorem close_after_start (driver_ : Drv) (s : St) :
  let s' := exec (start driver_ ;;; close) s in
  trace (recorder s') = [ [] ]
  /\ outcome export s' = Ok "[{}]"
  /\ outcome export s' <> outcome export (exec (start driver_) s).
Proof.
  destruct s as [r w]. repeat split; try reflexivity.
  cbv. discriminate.
Qed.

(** *** Notifications of events *)

Lemma get_event_location_state (o : obj) (s : St) :
  fst (_get_event_location o s) = s.
Proof.
  unfold _get_event_location, bind, read_world, of_result, ret.
  repeat (match goal with
          | |- context [match ?r with Ok _ => _ | Raise _ => _ end] => destruct r
          end; simpl; try reflexivity).
Qed.

Lemma add_event_ok (o : obj) (event : dict) (s : St) (loc : dict) (l : list val) :
  outcome (_get_event_location o) s = Ok loc ->
  current_events (recorder s) = Some (VList l) ->
  _add_event o event s = (recorded loc l event s, Ok tt).
Proof.
  intros Hloc Hev. unfold _add_event, bind.
  pose proof (get_event_location_state o s) as Hst.
  unfold outcome in Hloc.
  destruct (_get_event_location o s) as [s1 r1]; simpl in *; subst.
  unfold append_event, bind, read_recorder, of_result, getitem; simpl.
  unfold current_events in Hev. rewrite Hev. reflexivity.
Qed.

Lemma add_event_cases (o : obj) (event : dict) (s : St) :
  (exists e, _add_event o event s = (s, Raise e))
  \/ (exists loc l,
        outcome (_get_event_location o) s = Ok loc
        /\ current_events (recorder s) = Some (VList l)
        /\ _add_event o event s = (recorded loc l event s, Ok tt)).
Proof.
  destruct (outcome (_get_event_location o) s) as [loc|e] eqn:Hloc.
  - destruct (current_events (recorder s)) as [[| | | | |l|]|] eqn:Hev;
      try (right; exists loc, l; auto using add_event_ok);
      left; unfold _add_event, bind;
      pose proof (get_event_location_state o s) as Hst;
      unfold outcome in Hloc;
      destruct (_get_event_location o s) as [s1 r1]; simpl in *; subst;
      unfold append_event, bind, read_recorder, of_result, getitem; simpl;
      unfold current_events in Hev; rewrite Hev; eauto.
  - left. exists e. unfold _add_event, bind.
    pose proof (get_event_location_state o s) as Hst.
    unfold outcome in Hloc.
    destruct (_get_event_location o s) as [s1 r1]; simpl in *; subst. reflexivity.
Qed.

(** C5: an event notification that arrives while no page is open raises, and
    the state of the recorder, its trace included, is as before. *)
Theorem event_without_page (o : obj) (text : str) (s : St) :
  no_page_open (recorder s) ->
  (exists e, on_click o s = (s, Raise e))
  /\ (exists e, on_send_keys o text s = (s, Raise e))
  /\ trace (recorder (exec (on_click o) s)) = trace (recorder s)
  /\ trace (recorder (exec (on_send_keys o text) s)) = trace (recorder s).
Proof.
  intros Hno.
  assert (Hfail : forall event, exists e, _add_event o event s = (s, Raise e)).
  { intros event. destruct (add_event_cases o event s) as [?|(loc & l & _ & Hev & _)];
      [assumption|].
    unfold current_events in Hev. rewrite Hno in Hev. discriminate. }
  unfold on_click, on_send_keys, exec.
  destruct (Hfail [(lit "event_type", VStr (lit "click"))]) as [e1 ->].
  destruct (Hfail [(lit "event_type", VStr (lit "send_keys")); (lit "text", VStr text)])
    as [e2 ->].
  simpl. repeat split; eauto.
Qed.

End RecorderFacts.

(** *** Identities, and what the trace shows *)

Section TraceFacts.
Context `{Selenium}.

Lemma wf_fresh : wf fresh_recorder.
Proof. split; [constructor | simpl; lia]. Qed.

Lemma wf_append_current_page (r : Recorder) : wf r -> wf (append_current_page r).
Proof.
  intros [Hp Hc]. split; simpl; [|assumption].
  apply Forall_app. split; [assumption|]. constructor; [assumption|constructor].
Qed.

Lemma wf_bind_current_page (d : dict) (r : Recorder) :
  wf r -> wf (bind_current_page d r).
Proof.
  intros [Hp Hc]. split; simpl; [|lia].
  eapply Forall_impl; [exact Hp|]. simpl. intros; lia.
Qed.

Lemma wf_store (a : nat) (d : dict) (r : Recorder) : wf r -> wf (store a d r).
Proof. intros [Hp Hc]. split; assumption. Qed.

Lemma trace_append_current_page (r : Recorder) :
  trace (append_current_page r) = trace r ++ [heap r (_current_page r)].
Proof. unfold trace; simpl. rewrite map_app. reflexivity. Qed.

Lemma trace_bind_current_page (d : dict) (r : Recorder) :
  wf r -> trace (bind_current_page d r) = trace r.
Proof.
  intros [Hp _]. unfold trace; simpl.
  apply map_ext_in. intros a Ha.
  rewrite Forall_forall in Hp. apply list_elem_of_In, Hp in Ha.
  destruct (decide (a = next r)); [lia|reflexivity].
Qed.

Lemma trace_store_other (a : nat) (d : dict) (r : Recorder) :
  a ∉ _pages r -> trace (store a d r) = trace r.
Proof.
  intros Ha. unfold trace; simpl.
  apply map_ext_in. intros a' Ha'. apply list_elem_of_In in Ha'.
  destruct (decide (a' = a)); [subst; contradiction|reflexivity].
Qed.

Lemma dict_get_set_eq (k : str) (v : val) (d : dict) :
  dict_get k (dict_set k v d) = Some v.
Proof.
  induction d as [|[k' v'] d IH]; simpl.
  - destruct (decide (k = k)); [reflexivity|contradiction].
  - destruct (decide (k' = k)) as [->|Hne]; simpl.
    + destruct (decide (k = k)); [reflexivity|contradiction].
    + destruct (decide (k' = k)); [contradiction|assumption].
Qed.

Lemma page_open_truthy (r : Recorder) :
  page_open r -> truthy (VDict (heap r (_current_page r))) = true.
Proof.
  intros [l Hl]. simpl. destruct (heap r (_current_page r)); [discriminate|reflexivity].
Qed.

(** What a notification leaves of the recorder: identities and the list of
    pages stay as they are unless the notification is a navigation. *)
Lemma add_event_frame (o : obj) (event : dict) (s : St) :
  let r := recorder s in
  let r' := recorder (exec (_add_event o event) s) in
  _pages r' = _pages r /\ _current_page r' = _current_page r /\ next r' = next r.
Proof.
  unfold exec.
  destruct (add_event_cases o event s) as [[e ->]|(loc & l & _ & _ & ->)];
    simpl; auto.
Qed.

Lemma open_page_apart_navigate (url : str) (s : St) :
  open_page_apart (recorder s) ->
  open_page_apart (recorder (exec (on_navigate_to_url url) s)).
Proof.
  intros [Hwf Hnotin]. unfold exec. rewrite on_navigate_to_url_spec.
  cbn [fst recorder].
  set (r1 := if truthy (VDict (heap (recorder s) (_current_page (recorder s))))
             then append_current_page (recorder s) else recorder s).
  assert (Hwf1 : wf r1).
  { subst r1. destruct (truthy (VDict (heap (recorder s) (_current_page (recorder s)))));
      auto using wf_append_current_page. }
  clearbody r1.
  split; [apply wf_bind_current_page; assumption|].
  simpl. destruct Hwf1 as [Hp _]. rewrite Forall_forall in Hp.
  intros Hin. apply Hp in Hin. lia.
Qed.

Lemma open_page_apart_add_event (o : obj) (event : dict) (s : St) :
  open_page_apart (recorder s) ->
  open_page_apart (recorder (exec (_add_event o event) s)).
Proof.
  intros [[Hp Hc] Hnotin].
  destruct (add_event_frame o event s) as (Ep & Ec & En).
  unfold open_page_apart, wf. rewrite Ep, Ec, En. auto.
Qed.

Lemma open_page_apart_notify_all (ns : list notification) (s : St) :
  open_page_apart (recorder s) -> open_page_apart (recorder (notify_all ns s)).
Proof.
  revert s. induction ns as [|n ns IH]; intros s Hs; [assumption|].
  simpl. apply IH. destruct n; simpl.
  - apply open_page_apart_navigate; assumption.
  - apply open_page_apart_add_event; assumption.
  - apply open_page_apart_add_event; assumption.
Qed.

Lemma open_page_apart_start (driver_ : Drv) (s : St) :
  open_page_apart (recorder (exec (start driver_) s)).
Proof.
  destruct s as [r w]. split; [apply wf_fresh|]. simpl. apply not_elem_of_nil.
Qed.

End TraceFacts.

Section RecorderClaims.
Context `{Selenium}.

(** C2, as the code has it: a navigation notification that arrives while a
    page is open finalizes that page, whether or not it has events: the page
    is appended to the trace and a new page for the url, without events,
    becomes the open one. Only when no page is open is nothing appended. *)
Theorem navigation_finalizes_open_page (url : str) (s : St) :
  wf (recorder s) ->
  let r := recorder s in
  let r' := recorder (exec (on_navigate_to_url url) s) in
  outcome (on_navigate_to_url url) s = Ok tt
  /\ (page_open r -> trace r' = trace r ++ [heap r (_current_page r)])
  /\ (no_page_open r -> trace r' = trace r)
  /\ heap r' (_current_page r') = new_page url
  /\ wf r'.
Proof.
  intros Hwf r r'. subst r'. unfold exec, outcome.
  rewrite on_navigate_to_url_spec. cbn [fst snd recorder]. fold r.
  split; [reflexivity|]. split; [|split; [|split]].
  - intros Hopen. rewrite (page_open_truthy r Hopen).
    rewrite trace_bind_current_page by (apply wf_append_current_page; assumption).
    apply trace_append_current_page.
  - intros Hno. unfold no_page_open in Hno. simpl. rewrite Hno.
    apply trace_bind_current_page; assumption.
  - simpl. destruct (decide (_ = _)); [reflexivity|contradiction].
  - apply wf_bind_current_page.
    destruct (truthy _); auto using wf_append_current_page.
Qed.

(** C6: the location of an event is [x + width / 2] and [y + height / 2] of
    the element it is notified for, and this is what [on_click] records; an
    element at (10, 20) of size (100, 40) gives (60.0, 40.0). *)
Theorem event_location_is_center (o : obj) (s : St) (loc size : dict)
    (x y width height cx cy : val) (l : list val) :
  attr_location o (world s) = Ok loc ->
  attr_size o (world s) = Ok size ->
  dict_get (lit "x") loc = Some x ->
  dict_get (lit "y") loc = Some y ->
  dict_get (lit "width") size = Some width ->
  dict_get (lit "height") size = Some height ->
  add_half x width = Ok cx ->
  add_half y height = Ok cy ->
  current_events (recorder s) = Some (VList l) ->
  let center := [(lit "x", cx); (lit "y", cy)] in
  _get_event_location o s = (s, Ok center)
  /\ current_events (recorder (exec (on_click o) s))
     = Some (VList (l ++ [VDict [(lit "event_type", VStr (lit "click"));
                                 (lit "location", VDict center)]]))
  /\ (x = VInt 10 -> y = VInt 20 -> width = VInt 100 -> height = VInt 40 ->
      center = [(lit "x", VFloat 60); (lit "y", VFloat 40)]).
Proof.
  intros Hloc Hsize Hx Hy Hw Hh Hcx Hcy Hev center.
  assert (Hget : _get_event_location o s = (s, Ok center)).
  { unfold _get_event_location, bind, read_world, of_result, getitem, ret.
    rewrite Hloc, Hsize, Hx, Hw, Hcx, Hy, Hh, Hcy. reflexivity. }
  split; [exact Hget|]. split.
  - unfold on_click, exec.
    rewrite (add_event_ok o _ s center l); [|unfold outcome; rewrite Hget; reflexivity|exact Hev].
    unfold current_events, recorded; simpl.
    destruct (decide (_ = _)); [|contradiction].
    apply dict_get_set_eq.
  - intros -> -> -> ->. subst center.
    vm_compute in Hcx, Hcy. congruence.
Qed.

(** C8: [export] returns the serialized trace and leaves the state alone, so
    a second call prints the same; between [start] and [close] the open page
    is not in the trace, whatever was notified, and the output does not depend
    on it; [close] puts it last. *)
Theorem export_is_pure (driver_ : Drv) (ns : list notification) (s0 : St) (d : dict) :
  let s := notify_all ns (exec (start driver_) s0) in
  let r := recorder s in
  export s = (s, Ok (Json.dumps (VList (List.map VDict (trace r)))))
  /\ outcome export (exec export s) = outcome export s
  /\ (_current_page r ∉ _pages r)
  /\ outcome export {| recorder := store (_current_page r) d r; world := world s |}
     = outcome export s
  /\ trace (recorder (exec close s)) = trace r ++ [heap r (_current_page r)].
Proof.
  intros s r.
  assert (Hinv : open_page_apart r)
    by (apply open_page_apart_notify_all, open_page_apart_start).
  destruct Hinv as [Hwf Hnotin].
  split; [reflexivity|]. split; [reflexivity|]. split; [assumption|]. split.
  - unfold outcome. rewrite !export_spec. cbn [snd recorder].
    rewrite trace_store_other by assumption. reflexivity.
  - apply trace_append_current_page.
Qed.

End RecorderClaims.

(** ** Text: the UTF-8 round trip of [send_keys] *)

Ltac div_lia := zify; Z.to_euclidean_division_equations; lia.

Ltac bool_arith :=
  repeat match goal with
  | |- context [(?a <? ?b)%N] =>
      let H := fresh in
      destruct (N.ltb_spec a b) as [H|H]; [|try (exfalso; div_lia)];
      try (exfalso; div_lia)
  | |- context [(?a <=? ?b)%N] =>
      let H := fresh in
      destruct (N.leb_spec a b) as [H|H]; [|try (exfalso; div_lia)];
      try (exfalso; div_lia)
  end.

Lemma utf8_decode_encode_cp (c : N) (rest : list N) :
  encodable_cp c = true ->
  exists bs, utf8_encode_cp c = Ok bs
    /\ utf8_decode (bs ++ rest)
       = match utf8_decode rest with Ok s => Ok (c :: s) | Raise e => Raise e end.
Proof.
  unfold encodable_cp, is_surrogate. intros Hc.
  apply andb_true_iff in Hc as [Hlt Hsur]. apply N.ltb_lt in Hlt.
  apply negb_true_iff, andb_false_iff in Hsur.
  assert (Hs : (c < 55296 \/ 57343 < c)%N).
  { destruct Hsur as [H|H]; [apply N.leb_gt in H|apply N.leb_gt in H]; lia. }
  clear Hsur.
  unfold utf8_encode_cp, is_surrogate.
  destruct (N.ltb_spec c 128) as [H1|H1].
  { eexists; split; [reflexivity|]. simpl.
    destruct (N.ltb_spec c 128); [reflexivity|lia]. }
  destruct (N.ltb_spec c 2048) as [H2|H2].
  { eexists; split; [reflexivity|].
    cbn [app utf8_decode]. unfold is_cont. bool_arith. simpl.
    replace ((192 + c / 64 - 192) * 64 + (128 + c mod 64 - 128))%N with c by div_lia.
    reflexivity. }
  destruct (N.ltb_spec c 65536) as [H3|H3].
  { assert (Hsur : ((55296 <=? c) && (c <=? 57343))%N = false).
    { apply andb_false_iff.
      destruct Hs; [left; apply N.leb_gt|right; apply N.leb_gt]; lia. }
    rewrite Hsur.
    eexists; split; [reflexivity|].
    cbn [app utf8_decode]. unfold is_cont, is_surrogate.
    replace ((224 + c / 4096 - 224) * 4096 + (128 + c / 64 mod 64 - 128) * 64
             + (128 + c mod 64 - 128))%N with c by div_lia.
    rewrite Hsur. bool_arith. reflexivity. }
  destruct (N.ltb_spec c 1114112) as [H4|H4]; [|lia].
  eexists; split; [reflexivity|].
  cbn [app utf8_decode]. unfold is_cont.
  replace ((240 + c / 262144 - 240) * 262144 + (128 + c / 4096 mod 64 - 128) * 4096
           + (128 + c / 64 mod 64 - 128) * 64 + (128 + c mod 64 - 128))%N
    with c by div_lia.
  bool_arith. reflexivity.
Qed.

Lemma encode_decode_encodable (s : str) :
  encodable s = true -> encode_decode s = Ok s.
Proof.
  unfold encode_decode. induction s as [|c s IH]; intros Hs; [reflexivity|].
  simpl in Hs. apply andb_true_iff in Hs as [Hc Hs]. specialize (IH Hs).
  cbn [utf8_encode].
  destruct (utf8_encode s) as [bs'|e]; [|discriminate].
  destruct (utf8_decode_encode_cp c bs' Hc) as (bs & -> & Hdec).
  rewrite Hdec, IH. reflexivity.
Qed.

Lemma encodable_lit (s : string) : encodable (lit s) = true.
Proof.
  unfold lit. induction s as [|a s IH]; [reflexivity|].
  cbn [list_ascii_of_string map encodable forallb].
  change (encodable_cp (N_of_ascii a)
          && encodable (map N_of_ascii (list_ascii_of_string s)) = true).
  rewrite IH, andb_true_r.
  pose proof (N_ascii_bounded a) as Hb.
  unfold encodable_cp, is_surrogate. bool_arith; reflexivity.
Qed.

Lemma key_text_ok (v : val) : key_ok v = true -> Element.key_text v = Ok (key_str v).
Proof.
  destruct v; simpl; try discriminate; intros Hv.
  - destruct b; apply encode_decode_encodable, encodable_lit.
  - apply encode_decode_encodable, encodable_lit.
  - apply encode_decode_encodable, Hv.
Qed.

Lemma keys_text_ok (value : list val) (text : str) :
  forallb key_ok value = true ->
  Element.keys_text text value = Ok (text ++ concat (List.map key_str value)).
Proof.
  revert text. induction value as [|v value IH]; intros text Hv; simpl.
  - rewrite app_nil_r. reflexivity.
  - simpl in Hv. apply andb_true_iff in Hv as [Hv Hvs].
    rewrite (key_text_ok v Hv), (IH _ Hvs), app_assoc. reflexivity.
Qed.

(** A value that is neither an [int] nor a [str] stops the loop. *)
Lemma keys_text_float (text : str) (before after : list val) (f : float) :
  forallb key_ok before = true ->
  Element.keys_text text (before ++ VFloat f :: after)
  = Raise (AttributeError "encode").
Proof.
  revert text. induction before as [|v before IH]; intros text Hv; [reflexivity|].
  simpl in Hv. apply andb_true_iff in Hv as [Hv Hvs].
  simpl. rewrite (key_text_ok v Hv). apply IH, Hvs.
Qed.

(** ** The element proxy: [click] and [send_keys] *)

Section ElementClaims.
Context `{Selenium}.

Lemma click_unfold (self : RecordingWebElement) :
  Element.click self
  = (on_click (OProxy self) ;;;
     Element.call_click (element self) ;;;
     let* url := read_world (drv_current_url (driver (_driver self))) in
     on_navigate_to_url url).
Proof. reflexivity. Qed.

Lemma send_keys_unfold (self : RecordingWebElement) (value : list val) :
  Element.send_keys self value
  = (let* text := of_result (fun _ => Element.keys_text [] value) in
     on_send_keys (OProxy self) text ;;;
     Element.call_send_keys (element self) value).
Proof. reflexivity. Qed.

(** C3: [click] records the Click event first, with the location of the
    element as it is before the click, then clicks the wrapped element, then
    notifies a navigation to the url the driver has after the click. If the
    recording raises, the element is not clicked; if the click raises, the
    event stays recorded and no navigation is notified. *)
Theorem click_order (self : RecordingWebElement) (s : St) :
  (forall loc l s2 url,
      outcome (_get_event_location (OProxy self)) s = Ok loc ->
      current_events (recorder s) = Some (VList l) ->
      Element.call_click (element self) (recorded loc l click_event s) = (s2, Ok tt) ->
      drv_current_url (driver (_driver self)) (world s2) = Ok url ->
      Element.click self s = (exec (on_navigate_to_url url) s2, Ok tt))
  /\ (forall loc l e w' url,
      outcome (_get_event_location (OProxy self)) s = Ok loc ->
      current_events (recorder s) = Some (VList l) ->
      element self = ORaw e ->
      raw_click e (world s) = (w', Ok tt) ->
      drv_current_url (driver (_driver self)) w' = Ok url ->
      Element.click self s
      = ({| recorder :=
              bind_current_page (new_page url)
                (append_current_page (recorder (recorded loc l click_event s)));
            world := w' |}, Ok tt))
  /\ (forall e, on_click (OProxy self) s = (s, Raise e) ->
      Element.click self s = (s, Raise e))
  /\ (forall loc l s2 e,
      outcome (_get_event_location (OProxy self)) s = Ok loc ->
      current_events (recorder s) = Some (VList l) ->
      Element.call_click (element self) (recorded loc l click_event s) = (s2, Raise e) ->
      Element.click self s = (s2, Raise e)).
Proof.
  assert (Hgen : forall loc l s2 url,
      outcome (_get_event_location (OProxy self)) s = Ok loc ->
      current_events (recorder s) = Some (VList l) ->
      Element.call_click (element self) (recorded loc l click_event s) = (s2, Ok tt) ->
      drv_current_url (driver (_driver self)) (world s2) = Ok url ->
      Element.click self s = (exec (on_navigate_to_url url) s2, Ok tt)).
  { intros loc l s2 url Hloc Hev Hclick Hurl.
    rewrite click_unfold. unfold bind at 1. unfold on_click.
    rewrite (add_event_ok _ _ s loc l Hloc Hev).
    unfold bind at 1. fold click_event. rewrite Hclick.
    unfold bind, read_world, of_result. rewrite Hurl.
    unfold exec. rewrite on_navigate_to_url_spec. reflexivity. }
  split; [exact Hgen|]. split; [|split].
  - intros loc l e w' url Hloc Hev He Hclick Hurl.
    rewrite (Hgen loc l
               {| recorder := recorder (recorded loc l click_event s); world := w' |}
               url Hloc Hev).
    + unfold exec. rewrite on_navigate_to_url_spec. cbn [fst recorder world].
      assert (Hopen : page_open (recorder (recorded loc l click_event s))).
      { eexists. unfold recorded; simpl.
        destruct (decide (_ = _)); [|contradiction]. apply dict_get_set_eq. }
      rewrite (page_open_truthy _ Hopen). reflexivity.
    + rewrite He. simpl. unfold with_world. simpl. rewrite Hclick. reflexivity.
    + exact Hurl.
  - intros e He. rewrite click_unfold. unfold bind at 1. rewrite He. reflexivity.
  - intros loc l s2 e Hloc Hev Hclick.
    rewrite click_unfold. unfold bind at 1. unfold on_click.
    rewrite (add_event_ok _ _ s loc l Hloc Hev).
    unfold bind at 1. fold click_event. rewrite Hclick. reflexivity.
Qed.


End ElementClaims.

(** ** Lookups *)

Section LookupClaims.
Context `{Selenium}.

Lemma new_proxy_spec (d : RecordingWebDriver) (o : obj) (s s' : St)
    (p : RecordingWebElement) :
  Element.new_RecordingWebElement d o s = (s', Ok p) ->
  element p = o /\ _driver p = d.
Proof.
  unfold Element.new_RecordingWebElement, bind, read_world, of_result, with_world,
    modify, ret.
  destruct s as [r w]; simpl.
  destruct (getattr_find_element o w); [|discriminate]. simpl.
  destruct (getattr_find_elements o _); [|discriminate].
  intros [= _ <-]. split; reflexivity.
Qed.

Lemma new_proxy_total (d : RecordingWebDriver) (o : obj) (s : St) :
  lookups_bound ->
  exists s' p, Element.new_RecordingWebElement d o s = (s', Ok p).
Proof.
  intros Hb.
  unfold Element.new_RecordingWebElement, bind, read_world, of_result, with_world,
    modify, ret.
  destruct s as [r w]; simpl.
  destruct (Hb o w) as [H1 _].
  destruct (getattr_find_element o w); [|discriminate]. simpl.
  destruct (Hb o (rebind "find_element" o w)) as [_ H2].
  destruct (getattr_find_elements o _); [|discriminate].
  eauto.
Qed.

Lemma wrap_spec (d : RecordingWebDriver) (o r : obj) (s s' : St) :
  Element.wrap d o s = (s', Ok r) -> wraps d o r.
Proof.
  unfold Element.wrap, bind, ret.
  destruct (Element.new_RecordingWebElement d o s) as [s1 [p|e]] eqn:Hnew;
    [|discriminate].
  intros [= _ <-]. exists p. split; [reflexivity|]. eapply new_proxy_spec, Hnew.
Qed.

Lemma wrap_total (d : RecordingWebDriver) (o : obj) (s : St) :
  lookups_bound -> exists s' r, Element.wrap d o s = (s', Ok r).
Proof.
  intros Hb. destruct (new_proxy_total d o s Hb) as (s' & p & Hnew).
  unfold Element.wrap, bind, ret. rewrite Hnew. eauto.
Qed.

Lemma mapM_wrap_spec (d : RecordingWebDriver) (os rs : list obj) (s s' : St) :
  mapM (Element.wrap d) os s = (s', Ok rs) -> Forall2 (wraps d) os rs.
Proof.
  revert rs s s'. induction os as [|o os IH]; intros rs s s'; simpl.
  - intros [= _ <-]. constructor.
  - unfold bind at 1.
    destruct (Element.wrap d o s) as [s1 [r|e]] eqn:Hw; [|discriminate].
    unfold bind at 1.
    destruct (mapM (Element.wrap d) os s1) as [s2 [rs'|e]] eqn:Hm; [|discriminate].
    intros [= _ <-]. constructor; [eapply wrap_spec, Hw|eapply IH, Hm].
Qed.

Lemma mapM_wrap_total (d : RecordingWebDriver) (os : list obj) (s : St) :
  lookups_bound -> exists s' rs, mapM (Element.wrap d) os s = (s', Ok rs).
Proof.
  intros Hb. revert s. induction os as [|o os IH]; intros s; simpl.
  - unfold ret. eauto.
  - destruct (wrap_total d o s Hb) as (s1 & r & Hw).
    destruct (IH s1) as (s2 & rs & Hm).
    unfold bind. rewrite Hw, Hm. unfold ret. eauto.
Qed.

(** One lookup, given the underlying search [search]. *)
Lemma lookup_one_spec (d : RecordingWebDriver) (search : M St obj) (s s' : St)
    (r : obj) :
  (let* element_ := search in
   if obj_truthy element_ then Element.wrap d element_ else ret element_) s
  = (s', Ok r) ->
  exists s1 o, search s = (s1, Ok o) /\ wrapped_or_none d o r
               /\ (obj_truthy o = false -> s' = s1).
Proof.
  unfold bind. destruct (search s) as [s1 [o|e]]; [|discriminate].
  intros Hr. exists s1, o. split; [reflexivity|]. unfold wrapped_or_none.
  destruct (obj_truthy o).
  - split; [eapply wrap_spec, Hr|discriminate].
  - injection Hr as <- <-. auto.
Qed.

Lemma lookup_many_spec (d : RecordingWebDriver) (search : M St (list obj))
    (s s' : St) (rs : list obj) :
  (let* elements_list := search in
   match elements_list with
   | [] => ret elements_list
   | _ => mapM (Element.wrap d) elements_list
   end) s = (s', Ok rs) ->
  exists s1 os, search s = (s1, Ok os) /\ Forall2 (wraps d) os rs
                /\ (os = [] -> rs = [] /\ s' = s1).
Proof.
  unfold bind. destruct (search s) as [s1 [os|e]]; [|discriminate].
  intros Hr. exists s1, os. split; [reflexivity|].
  destruct os as [|o os].
  - injection Hr as <- <-. split; [constructor|auto].
  - split; [eapply mapM_wrap_spec, Hr|discriminate].
Qed.

(** C7: whatever a lookup of a proxy returns, each element the underlying
    search found comes back inside a proxy made by the same driver proxy, in
    the same order; a search that finds nothing gives its own result back:
    the empty list for [find_elements], the no-result value for
    [find_element]. When the two names can be looked up on what was found,
    the lookups return whenever the underlying search does. *)
Theorem lookups_wrap_results (self : RecordingWebElement) (drv : RecordingWebDriver)
    (by_ value : val) (s : St) :
  (forall s' r, Element.find_element self by_ value s = (s', Ok r) ->
     exists s1 o, _original_find_element self by_ value s = (s1, Ok o)
                  /\ wrapped_or_none (_driver self) o r
                  /\ (obj_truthy o = false -> s' = s1))
  /\ (forall s' rs, Element.find_elements self by_ value s = (s', Ok rs) ->
     exists s1 os, _original_find_elements self by_ value s = (s1, Ok os)
                   /\ Forall2 (wraps (_driver self)) os rs
                   /\ (os = [] -> rs = [] /\ s' = s1))
  /\ (forall s' r, Driver.find_element drv by_ value s = (s', Ok r) ->
     exists s1 o, with_world (drv_find_element (driver drv) by_ value) s = (s1, Ok o)
                  /\ wrapped_or_none drv o r
                  /\ (obj_truthy o = false -> s' = s1))
  /\ (forall s' rs, Driver.find_elements drv by_ value s = (s', Ok rs) ->
     exists s1 os, with_world (drv_find_elements (driver drv) by_ value) s = (s1, Ok os)
                   /\ Forall2 (wraps drv) os rs
                   /\ (os = [] -> rs = [] /\ s' = s1))
  /\ (lookups_bound ->
      (forall s1 o, _original_find_element self by_ value s = (s1, Ok o) ->
         exists s' r, Element.find_element self by_ value s = (s', Ok r))
      /\ (forall s1 os, _original_find_elements self by_ value s = (s1, Ok os) ->
         exists s' rs, Element.find_elements self by_ value s = (s', Ok rs))
      /\ (forall s1 o,
         with_world (drv_find_element (driver drv) by_ value) s = (s1, Ok o) ->
         exists s' r, Driver.find_element drv by_ value s = (s', Ok r))
      /\ (forall s1 os,
         with_world (drv_find_elements (driver drv) by_ value) s = (s1, Ok os) ->
         exists s' rs, Driver.find_elements drv by_ value s = (s', Ok rs))).
Proof.
  split; [|split; [|split; [|split]]].
  - intros s' r. apply lookup_one_spec.
  - intros s' rs. apply lookup_many_spec.
  - intros s' r. apply lookup_one_spec.
  - intros s' rs. apply lookup_many_spec.
  - intros Hb. repeat split.
    + intros s1 o Ho. unfold Element.find_element, bind. rewrite Ho.
      destruct (obj_truthy o); [apply wrap_total, Hb|unfold ret; eauto].
    + intros s1 os Ho. unfold Element.find_elements, bind. rewrite Ho.
      destruct os; [unfold ret; eauto|apply mapM_wrap_total, Hb].
    + intros s1 o Ho. unfold Driver.find_element, bind. rewrite Ho.
      destruct (obj_truthy o); [apply wrap_total, Hb|unfold ret; eauto].
    + intros s1 os Ho. unfold Driver.find_elements, bind. rewrite Ho.
      destruct os; [unfold ret; eauto|apply mapM_wrap_total, Hb].
Qed.

End LookupClaims.

(** ** Interface mirroring *)

Section MirrorClaims.
Import Metaprog.

Variables (from_ to : nat) (ignore_list : list string) (override_existing : bool).

Let fwd (name : string) : attr := create_forwarded_method from_ to name.

Let bound (st : store) (name : string) : store :=
  fun o' => if decide (o' = from_) then <[name := fwd name]> (st o') else st o'.

Lemma mirror_one_spec (name : string) (st : store) :
  is_Some (st to !! name) ->
  mirror_one from_ to ignore_list override_existing name st
  = (if mirrored st from_ to ignore_list override_existing name
     then bound st name else st, Ok tt).
Proof.
  intros [a Ha]. unfold mirror_one, mirrored. rewrite Ha.
  destruct (negb (startswith_underscore name)
            && negb (bool_decide (name ∈ ignore_list))); simpl; [|reflexivity].
  unfold bind, getattr, hasattr, of_result. rewrite Ha.
  destruct (callable a); simpl; [|reflexivity].
  destruct (override_existing || negb (bool_decide (is_Some (st from_ !! name))));
    reflexivity.
Qed.

Lemma mirrored_ext (st st' : store) (name : string) :
  st' to !! name = st to !! name ->
  st' from_ !! name = st from_ !! name ->
  mirrored st' from_ to ignore_list override_existing name
  = mirrored st from_ to ignore_list override_existing name.
Proof. unfold mirrored. intros -> ->. reflexivity. Qed.

Lemma bound_other (st : store) (n name : string) (o : nat) :
  name <> n -> bound st n o !! name = st o !! name.
Proof.
  intros Hne. unfold bound. destruct (decide (o = from_)); [|reflexivity].
  apply lookup_insert_ne. congruence.
Qed.

Lemma bound_is_Some (st : store) (n name : string) (o : nat) :
  is_Some (st o !! name) -> is_Some (bound st n o !! name).
Proof.
  intros Hs. unfold bound. destruct (decide (o = from_)); [|assumption].
  destruct (decide (n = name)) as [->|Hne].
  - rewrite lookup_insert_eq. eauto.
  - rewrite lookup_insert_ne by assumption. assumption.
Qed.

Lemma for_each_mirror_spec (names : list string) (st : store) :
  NoDup names ->
  (forall n, n ∈ names -> is_Some (st to !! n)) ->
  exists st',
    for_each names (mirror_one from_ to ignore_list override_existing) st
    = (st', Ok tt)
    /\ (forall name,
          st' from_ !! name
          = if bool_decide (name ∈ names)
               && mirrored st from_ to ignore_list override_existing name
            then Some (fwd name) else st from_ !! name)
    /\ (forall o, o <> from_ -> st' o = st o).
Proof.
  revert st. induction names as [|n names IH]; intros st Hnd Hin.
  - exists st. repeat split; reflexivity.
  - apply NoDup_cons in Hnd as [Hn Hnd].
    simpl. unfold bind. rewrite mirror_one_spec by (apply Hin; left).
    set (st1 := if mirrored st from_ to ignore_list override_existing n
                then bound st n else st).
    assert (Hother : forall name o, name <> n -> st1 o !! name = st o !! name).
    { intros name o Hne. subst st1.
      destruct (mirrored st from_ to ignore_list override_existing n);
        [apply bound_other; assumption|reflexivity]. }
    assert (Hin1 : forall m, m ∈ names -> is_Some (st1 to !! m)).
    { intros m Hm. subst st1.
      destruct (mirrored st from_ to ignore_list override_existing n);
        [apply bound_is_Some|]; apply Hin; right; assumption. }
    destruct (IH st1 Hnd Hin1) as (st' & Hrun & Hfrom & Hrest).
    exists st'. split; [exact Hrun|]. split.
    + intros name. rewrite Hfrom.
      destruct (decide (name = n)) as [->|Hne].
      * rewrite (bool_decide_eq_false_2 _ Hn).
        rewrite bool_decide_eq_true_2 by left. simpl. subst st1.
        destruct (mirrored st from_ to ignore_list override_existing n);
          [|reflexivity].
        unfold bound. destruct (decide (from_ = from_)); [|contradiction].
        apply lookup_insert_eq.
      * rewrite (mirrored_ext st st1) by (apply Hother; assumption).
        rewrite (Hother name from_ Hne).
        assert (Hiff : bool_decide (name ∈ n :: names) = bool_decide (name ∈ names)).
        { apply bool_decide_ext. rewrite elem_of_cons. tauto. }
        rewrite Hiff. reflexivity.
    + intros o Ho. rewrite (Hrest o Ho). subst st1.
      destruct (mirrored st from_ to ignore_list override_existing n);
        [|reflexivity].
      unfold bound. destruct (decide (o = from_)); [contradiction|reflexivity].
Qed.

End MirrorClaims.


(** ** The recorder over a whole session *)

Section SessionFacts.
Context `{Selenium}.

Lemma dict_get_set_ne (k k' : str) (v : val) (d : dict) :
  k <> k' -> dict_get k (dict_set k' v d) = dict_get k d.
Proof.
  intros Hne. induction d as [|[k0 v0] d IH]; simpl.
  - destruct (decide (k' = k)); [congruence|reflexivity].
  - destruct (decide (k0 = k')) as [->|Hne0]; simpl.
    + destruct (decide (k' = k)); [congruence|reflexivity].
    + destruct (decide (k0 = k)); [reflexivity|assumption].
Qed.

Lemma get_event_location_world (o : obj) (s s' : St) :
  world s = world s' ->
  outcome (_get_event_location o) s = outcome (_get_event_location o) s'.
Proof.
  intros Hw. unfold outcome, _get_event_location, bind, read_world, of_result, ret.
  rewrite Hw.
  repeat (match goal with
          | |- context [match ?r with Ok _ => _ | Raise _ => _ end] => destruct r
          end; simpl; try reflexivity).
Qed.

Lemma notify_cases (n : notification) (s : St) :
  (exists url, n = Navigate url)
  \/ (navigated [n] = []
      /\ (exec (notify n) s = s
          \/ (exists loc l event,
                current_events (recorder s) = Some (VList l)
                /\ exec (notify n) s = recorded loc l event s))).
Proof.
  destruct n as [url|o|o text]; [left; eauto|right; split; [reflexivity|]..];
    simpl; unfold exec.
  - unfold on_click.
    destruct (add_event_cases o [(lit "event_type", VStr (lit "click"))] s)
      as [[e ->]|(loc & l & _ & Hev & ->)]; [left; reflexivity|right; eauto].
  - unfold on_send_keys.
    destruct (add_event_cases o
                [(lit "event_type", VStr (lit "send_keys")); (lit "text", VStr text)] s)
      as [[e ->]|(loc & l & _ & Hev & ->)]; [left; reflexivity|right; eauto].
Qed.

Lemma navigated_cons (n : notification) (ns : list notification) :
  navigated (n :: ns) = navigated [n] ++ navigated ns.
Proof. unfold navigated. simpl. rewrite app_nil_r. reflexivity. Qed.

Lemma trace_recorded (loc : dict) (l : list val) (event : dict) (s : St) :
  _current_page (recorder s) ∉ _pages (recorder s) ->
  trace (recorder (recorded loc l event s)) = trace (recorder s).
Proof. intros Hnotin. unfold recorded. simpl. apply trace_store_other, Hnotin. Qed.

Lemma trace_navigate (url : str) (s : St) :
  wf (recorder s) ->
  trace (recorder (exec (on_navigate_to_url url) s))
  = if truthy (VDict (current_page (recorder s)))
    then trace (recorder s) ++ [current_page (recorder s)]
    else trace (recorder s).
Proof.
  intros Hwf. unfold exec. rewrite on_navigate_to_url_spec. cbn [fst recorder].
  unfold current_page.
  destruct (truthy (VDict (heap (recorder s) (_current_page (recorder s))))).
  - rewrite trace_bind_current_page by (apply wf_append_current_page, Hwf).
    apply trace_append_current_page.
  - apply trace_bind_current_page, Hwf.
Qed.

Lemma trace_prefix_notify (n : notification) (s : St) :
  open_page_apart (recorder s) ->
  trace (recorder s) `prefix_of` trace (recorder (exec (notify n) s)).
Proof.
  intros [Hwf Hnotin].
  destruct (notify_cases n s) as [[url ->]|[_ [->|(loc & l & event & _ & ->)]]].
  - simpl. rewrite trace_navigate by assumption.
    destruct (truthy _); [apply prefix_app_r|]; reflexivity.
  - reflexivity.
  - rewrite trace_recorded by assumption. reflexivity.
Qed.

Lemma open_page_apart_notify (n : notification) (s : St) :
  open_page_apart (recorder s) -> open_page_apart (recorder (exec (notify n) s)).
Proof. intros Hs. apply (open_page_apart_notify_all [n] s Hs). Qed.

(** X1: between [start] and [close] the trace only grows at its end: the
    pages it has after some notifications are still there, with the same
    contents and at the same places, after any further notifications. *)
Theorem finalized_pages_never_change (driver_ : Drv) (ns ns' : list notification)
    (s0 : St) :
  let s := notify_all ns (exec (start driver_) s0) in
  trace (recorder s) `prefix_of` trace (recorder (notify_all ns' s)).
Proof.
  intros s.
  assert (Hinv : open_page_apart (recorder s))
    by (apply open_page_apart_notify_all, open_page_apart_start).
  clearbody s. revert s Hinv.
  induction ns' as [|n ns' IH]; intros s Hinv; [reflexivity|].
  simpl. etransitivity; [apply trace_prefix_notify, Hinv|].
  apply IH, open_page_apart_notify, Hinv.
Qed.

End SessionFacts.

Section NavigationFacts.
Context `{Selenium}.

Lemma page_url_truthy (page : dict) (v : val) :
  page_url page = Some v -> truthy (VDict page) = true.
Proof. destruct page; [discriminate|reflexivity]. Qed.

Lemma page_url_recorded (loc : dict) (l : list val) (event : dict) (s : St) :
  page_url (current_page (recorder (recorded loc l event s)))
  = page_url (current_page (recorder s)).
Proof.
  unfold current_page, recorded, page_url. simpl.
  destruct (decide (_ = _)); [|contradiction].
  apply dict_get_set_ne. discriminate.
Qed.

Lemma page_url_navigate (url : str) (s : St) :
  page_url (current_page (recorder (exec (on_navigate_to_url url) s)))
  = Some (VStr url).
Proof.
  unfold exec. rewrite on_navigate_to_url_spec. unfold current_page. simpl.
  destruct (decide (_ = _)); [reflexivity|contradiction].
Qed.

(** The urls of the pages, the open one last. *)
Let urls (r : Recorder) : list (option val) :=
  List.map page_url (trace r ++ [current_page r]).

Lemma urls_unfold (r : Recorder) :
  urls r = List.map page_url (trace r) ++ [page_url (current_page r)].
Proof. unfold urls. rewrite map_app. reflexivity. Qed.

Lemma urls_open (ns : list notification) (s : St) (v : val) :
  open_page_apart (recorder s) ->
  page_url (current_page (recorder s)) = Some v ->
  urls (recorder (notify_all ns s))
  = urls (recorder s) ++ List.map (fun u => Some (VStr u)) (navigated ns).
Proof.
  revert s v. induction ns as [|n ns IH]; intros s v Hinv Hurl.
  - simpl. rewrite app_nil_r. reflexivity.
  - pose proof (open_page_apart_notify n s Hinv) as Hinv1.
    cbn [notify_all fold_left]. change (fold_left _ ns ?s) with (notify_all ns s).
    destruct (notify_cases n s) as [[url ->]|[Hn [Hsame|(loc & l & event & _ & Hrec)]]].
    + cbn [notify] in *.
      rewrite (IH _ (VStr url) Hinv1 (page_url_navigate url s)).
      rewrite !urls_unfold, page_url_navigate.
      rewrite trace_navigate by apply Hinv.
      rewrite (page_url_truthy _ _ Hurl).
      rewrite map_app. cbn [List.map navigated flat_map app].
      rewrite <- app_assoc. reflexivity.
    + assert (Hnav : navigated (n :: ns) = navigated ns).
      { rewrite navigated_cons, Hn. reflexivity. }
      rewrite Hnav, Hsame. apply (IH s v Hinv Hurl).
    + assert (Hnav : navigated (n :: ns) = navigated ns).
      { rewrite navigated_cons, Hn. reflexivity. }
      rewrite Hnav, Hrec. rewrite Hrec in Hinv1.
      rewrite (IH _ v Hinv1) by (rewrite page_url_recorded; exact Hurl).
      rewrite !urls_unfold, page_url_recorded, trace_recorded by apply Hinv.
      reflexivity.
Qed.

Lemma notify_no_page (n : notification) (s : St) :
  no_page_open (recorder s) ->
  (exists url, n = Navigate url) \/ (navigated [n] = [] /\ exec (notify n) s = s).
Proof.
  intros Hno.
  destruct (notify_cases n s) as [?|[? [?|(loc & l & event & Hev & _)]]]; auto.
  unfold current_events in Hev. rewrite Hno in Hev. discriminate.
Qed.

Lemma urls_closed (ns : list notification) (s : St) :
  open_page_apart (recorder s) ->
  no_page_open (recorder s) ->
  (navigated ns = [] -> notify_all ns s = s)
  /\ (navigated ns <> [] ->
      urls (recorder (notify_all ns s))
      = List.map page_url (trace (recorder s))
        ++ List.map (fun u => Some (VStr u)) (navigated ns)).
Proof.
  intros Hinv Hno. induction ns as [|n ns [IH1 IH2]].
  - split; [reflexivity|intros []; reflexivity].
  - cbn [notify_all fold_left]. change (fold_left _ ns ?s) with (notify_all ns s).
    destruct (notify_no_page n s Hno) as [[url ->]|[Hn Hsame]].
    + split; [discriminate|intros _].
      pose proof (open_page_apart_notify (Navigate url) s Hinv) as Hinv1.
      cbn [notify] in *.
      rewrite (urls_open ns _ (VStr url) Hinv1 (page_url_navigate url s)).
      rewrite urls_unfold, page_url_navigate.
      rewrite trace_navigate by apply Hinv.
      unfold no_page_open in Hno. unfold current_page. rewrite Hno. simpl.
      rewrite <- app_assoc. reflexivity.
    + assert (Hnav : navigated (n :: ns) = navigated ns).
      { rewrite navigated_cons, Hn. reflexivity. }
      rewrite Hnav, Hsame. split; assumption.
Qed.

(** X2: after [start], the pages are those of the navigations notified, one
    page for each and in their order, the page of the last navigation being
    the open one; events never add or remove a page. Until the first
    navigation every event notification is turned down and the recorder stays
    as [start] left it. *)
Theorem pages_follow_navigations (driver_ : Drv) (ns : list notification) (s0 : St) :
  let s := exec (start driver_) s0 in
  let r := recorder (notify_all ns s) in
  (navigated ns = [] -> notify_all ns s = s)
  /\ (navigated ns <> [] ->
      List.map page_url (trace r ++ [current_page r])
      = List.map (fun u => Some (VStr u)) (navigated ns)
      /\ length (trace r) = pred (length (navigated ns))).
Proof.
  intros s r.
  destruct (urls_closed ns s (open_page_apart_start driver_ s0)) as [H1 H2];
    [destruct s0; reflexivity|].
  split; [exact H1|]. intros Hne. specialize (H2 Hne).
  assert (Hs : trace (recorder s) = []) by (destruct s0; reflexivity).
  rewrite Hs in H2. simpl in H2. unfold urls in H2. fold r in H2.
  split; [exact H2|].
  apply (f_equal (@length _)) in H2. rewrite !length_map, length_app in H2.
  simpl in H2. lia.
Qed.

End NavigationFacts.

Section EventFacts.
Context `{Selenium}.

Lemma current_events_recorded (loc : dict) (l : list val) (event : dict) (s : St) :
  current_events (recorder (recorded loc l event s))
  = Some (VList (l ++ [located loc event])).
Proof.
  unfold current_events, recorded. simpl.
  destruct (decide (_ = _)); [|contradiction]. apply dict_get_set_eq.
Qed.

(** X3: an event notification is all or nothing. Either it raises and the
    session is exactly as before, or the event, with the location of the
    element, becomes the last event of the open page; the browser, the list of
    pages, every other page and every other key of the open page are as
    before in both cases. *)
Theorem event_notification_is_atomic (o : obj) (event : dict) (s : St) :
  let s' := exec (_add_event o event) s in
  let r := recorder s in
  let r' := recorder s' in
  world s' = world s
  /\ _pages r' = _pages r
  /\ _current_page r' = _current_page r
  /\ (forall a, a <> _current_page r -> heap r' a = heap r a)
  /\ (forall k, k <> lit "recorded_events" ->
        dict_get k (current_page r') = dict_get k (current_page r))
  /\ ((exists e, outcome (_add_event o event) s = Raise e) /\ s' = s
      \/ (exists loc l,
            outcome (_add_event o event) s = Ok tt
            /\ outcome (_get_event_location o) s = Ok loc
            /\ current_events r = Some (VList l)
            /\ current_events r' = Some (VList (l ++ [located loc event])))).
Proof.
  intros s' r r'. subst s' r r'. unfold exec, outcome.
  destruct (add_event_cases o event s) as [[e ->]|(loc & l & Hloc & Hev & ->)];
    unfold outcome in *; cbn [fst snd].
  - do 5 (split; [reflexivity|]). left. eauto.
  - split; [reflexivity|]. split; [reflexivity|]. split; [reflexivity|].
    split; [|split].
    + intros a Ha. unfold recorded. simpl.
      destruct (decide (a = _)); [contradiction|reflexivity].
    + intros k Hk. unfold current_page, recorded. simpl.
      destruct (decide (_ = _)); [|contradiction].
      apply dict_get_set_ne. congruence.
    + right. exists loc, l. rewrite current_events_recorded. auto.
Qed.

Lemma event_of_world (s s' : St) (n : notification) :
  world s = world s' -> event_of s' n = event_of s n.
Proof.
  intros Hw. destruct n; simpl; [reflexivity|..];
    rewrite (get_event_location_world _ s s' Hw); reflexivity.
Qed.

Lemma notify_event (n : notification) (s : St) (l : list val) :
  navigated [n] = [] ->
  current_events (recorder s) = Some (VList l) ->
  let s' := exec (notify n) s in
  world s' = world s
  /\ _pages (recorder s') = _pages (recorder s)
  /\ current_events (recorder s')
     = Some (VList (l ++ match event_of s n with Some ev => [ev] | None => [] end)).
Proof.
  intros Hn Hev.
  assert (Hadd : forall o event,
    let s' := exec (_add_event o event) s in
    world s' = world s
    /\ _pages (recorder s') = _pages (recorder s)
    /\ current_events (recorder s')
       = Some (VList (l ++ match outcome (_get_event_location o) s with
                           | Ok loc => [located loc event]
                           | Raise _ => []
                           end))).
  { intros o event. unfold exec.
    destruct (outcome (_get_event_location o) s) as [loc|e] eqn:Hloc.
    - rewrite (add_event_ok o event s loc l Hloc Hev). cbn [fst].
      rewrite current_events_recorded. auto.
    - destruct (add_event_cases o event s) as [[e' ->]|(loc & l' & Hloc' & _)];
        [|congruence].
      cbn [fst]. rewrite app_nil_r. auto. }
  destruct n as [url|o|o text]; [discriminate|..]; simpl.
  - specialize (Hadd o click_event).
    destruct (outcome (_get_event_location o) s); exact Hadd.
  - specialize (Hadd o (send_keys_event text)).
    destruct (outcome (_get_event_location o) s); exact Hadd.
Qed.

(** X4: the events of a page are the events notified while it is open, in
    the order of their notifications, those left out whose location could not
    be computed; notifying them changes neither the browser nor the list of
    pages. *)
Theorem events_keep_their_order (ns : list notification) (s : St) (l : list val) :
  navigated ns = [] ->
  current_events (recorder s) = Some (VList l) ->
  let s' := notify_all ns s in
  current_events (recorder s') = Some (VList (l ++ omap (event_of s) ns))
  /\ world s' = world s
  /\ _pages (recorder s') = _pages (recorder s).
Proof.
  revert s l. induction ns as [|n ns IH]; intros s l Hnav Hev.
  - simpl. rewrite app_nil_r. auto.
  - rewrite navigated_cons in Hnav. apply app_eq_nil in Hnav as [Hn Hns].
    destruct (notify_event n s l Hn Hev) as (Hw & Hp & Hev1).
    cbn [notify_all fold_left]. change (fold_left _ ns ?s) with (notify_all ns s).
    destruct (IH _ _ Hns Hev1) as (Hev2 & Hw2 & Hp2).
    cbn zeta. rewrite Hev2, Hw2, Hp2, Hw, Hp. split; [|auto].
    rewrite <- app_assoc. do 3 f_equal.
    assert (Hsame : omap (event_of (exec (notify n) s)) ns = omap (event_of s) ns).
    { generalize (exec (notify n) s) (eq_sym Hw). clear. intros s1 Hw1.
      induction ns as [|m ns IHns]; [reflexivity|].
      cbn [omap list_omap] in *. rewrite (event_of_world s s1 m Hw1), IHns.
      reflexivity. }
    rewrite Hsame. cbn [omap list_omap]. destruct (event_of s n); reflexivity.
Qed.

End EventFacts.

Section AfterClose.
Context `{Selenium}.

(** X5: [close] appends the open page itself, not a copy: an event notified
    after [close] is added to the page that is already the last page of the
    trace, so the trace (and what [export] prints from it) changes after the
    session was closed. *)
Theorem events_after_close_reach_the_trace (o : obj) (event : dict) (s : St)
    (loc : dict) (l : list val) :
  open_page_apart (recorder s) ->
  current_events (recorder s) = Some (VList l) ->
  outcome (_get_event_location o) s = Ok loc ->
  let r := recorder s in
  let s1 := exec close s in
  let s2 := exec (_add_event o event) s1 in
  trace (recorder s1) = trace r ++ [current_page r]
  /\ trace (recorder s2)
     = trace r ++ [dict_set (lit "recorded_events") (VList (l ++ [located loc event]))
                     (current_page r)]
  /\ trace (recorder s2) <> trace (recorder s1).
Proof.
  intros [Hwf Hnotin] Hev Hloc r s1 s2.
  assert (H1 : trace (recorder s1) = trace r ++ [current_page r])
    by apply trace_append_current_page.
  assert (H2 : trace (recorder s2)
               = trace r ++ [dict_set (lit "recorded_events")
                               (VList (l ++ [located loc event])) (current_page r)]).
  { subst s2. unfold exec.
    rewrite (add_event_ok o event s1 loc l);
      [|rewrite <- Hloc; apply get_event_location_world; reflexivity|exact Hev].
    cbn [fst]. unfold recorded, trace. cbn [recorder store heap _pages].
    subst s1. unfold exec, close. cbn [fst with_recorder modify recorder
      append_current_page _pages _current_page heap].
    rewrite map_app. cbn [List.map].
    destruct (decide (_ = _)); [|contradiction].
    f_equal. apply map_ext_in. intros a Ha. apply list_elem_of_In in Ha.
    destruct (decide (a = _current_page (recorder s))); [subst; contradiction|].
    reflexivity. }
  split; [exact H1|]. split; [exact H2|].
  rewrite H1, H2. intros Heq. apply app_inv_head in Heq. injection Heq as Heq.
  apply (f_equal (dict_get (lit "recorded_events"))) in Heq.
  rewrite dict_get_set_eq in Heq. unfold current_events in Hev.
  unfold current_page in Heq. fold r in Hev. rewrite Hev in Heq.
  injection Heq as Heq. apply (f_equal (@length _)) in Heq.
  rewrite length_app in Heq. simpl in Heq. lia.
Qed.

(** X6: [close] is not idempotent, and the recorder is not ready for more
    after it: a second [close] appends the same page once more, and so does a
    navigation notified after [close]. *)
Theorem close_twice_repeats_the_page (s : St) (url : str) :
  let r := recorder s in
  trace (recorder (exec (close ;;; close) s))
  = trace r ++ [current_page r; current_page r]
  /\ (wf r -> truthy (VDict (current_page r)) = true ->
      trace (recorder (exec (close ;;; on_navigate_to_url url) s))
      = trace r ++ [current_page r; current_page r]).
Proof.
  intros r. split.
  - unfold exec, close, bind, with_recorder, modify. cbn [fst recorder].
    rewrite !trace_append_current_page, <- app_assoc. reflexivity.
  - intros Hwf Htruthy.
    change (exec (close ;;; on_navigate_to_url url) s)
      with (exec (on_navigate_to_url url) (exec close s)).
    rewrite trace_navigate by (apply wf_append_current_page, Hwf).
    change (current_page (recorder (exec close s))) with (current_page r).
    rewrite Htruthy.
    change (recorder (exec close s)) with (append_current_page r).
    rewrite trace_append_current_page, <- app_assoc. reflexivity.
Qed.

End AfterClose.

(** ** The driver proxy *)

Section DriverFacts.
Context `{Selenium}.

(** X7: [get] notifies the navigation before it asks the underlying driver
    to navigate: the page for the url is open afterwards whether the driver's
    [get] returns or raises, the driver acts on the browser as it was, and its
    result or exception is that of [get]. *)
Theorem get_records_before_navigating (self : RecordingWebDriver) (url : str)
    (s : St) :
  let s' := exec (Driver.get self url) s in
  recorder s' = recorder (exec (on_navigate_to_url url) s)
  /\ current_page (recorder s') = new_page url
  /\ world s' = fst (drv_get (driver self) url (world s))
  /\ outcome (Driver.get self url) s = snd (drv_get (driver self) url (world s)).
Proof.
  unfold Driver.get, exec, outcome, bind. rewrite on_navigate_to_url_spec.
  unfold with_world. cbn [world recorder].
  destruct (drv_get (driver self) url (world s)) as [w' r]. cbn [fst snd recorder world].
  repeat split.
  unfold current_page. simpl. destruct (decide (_ = _)); [reflexivity|contradiction].
Qed.

Lemma new_proxy_recorder (d : RecordingWebDriver) (o : obj) (s : St) :
  recorder (exec (Element.new_RecordingWebElement d o) s) = recorder s.
Proof.
  unfold Element.new_RecordingWebElement, exec, bind, read_world, of_result,
    with_world, modify, ret.
  destruct s as [r w]; simpl.
  destruct (getattr_find_element o w); [|reflexivity]. simpl.
  destruct (getattr_find_elements o _); reflexivity.
Qed.

Lemma wrap_recorder (d : RecordingWebDriver) (o : obj) (s : St) :
  recorder (exec (Element.wrap d o) s) = recorder s.
Proof.
  pose proof (new_proxy_recorder d o s) as Hnew.
  unfold Element.wrap, exec, bind, ret in *.
  destruct (Element.new_RecordingWebElement d o s) as [s1 [p|e]]; exact Hnew.
Qed.

Lemma mapM_wrap_recorder (d : RecordingWebDriver) (os : list obj) (s : St) :
  recorder (exec (mapM (Element.wrap d) os) s) = recorder s.
Proof.
  revert s. induction os as [|o os IH]; intros s; [reflexivity|].
  pose proof (wrap_recorder d o s) as Hw. specialize (IH (exec (Element.wrap d o) s)).
  unfold exec in *. simpl. unfold bind at 1.
  destruct (Element.wrap d o s) as [s1 [r|e]]; [|exact Hw].
  cbn [fst] in *. unfold bind at 1.
  destruct (mapM (Element.wrap d) os s1) as [s2 [rs|e]]; cbn [fst] in *;
    unfold ret; cbn [fst]; congruence.
Qed.

Lemma lookup_one_recorder (d : RecordingWebDriver) (search : M St obj) (s : St) :
  recorder (exec search s) = recorder s ->
  recorder (exec (let* element_ := search in
                  if obj_truthy element_ then Element.wrap d element_ else ret element_) s)
  = recorder s.
Proof.
  intros Hs. unfold exec, bind in *.
  destruct (search s) as [s1 [o|e]]; cbn [fst] in *; [|exact Hs].
  destruct (obj_truthy o); [|exact Hs].
  rewrite <- Hs. apply wrap_recorder.
Qed.

Lemma lookup_many_recorder (d : RecordingWebDriver) (search : M St (list obj))
    (s : St) :
  recorder (exec search s) = recorder s ->
  recorder (exec (let* elements_list := search in
                  match elements_list with
                  | [] => ret elements_list
                  | _ => mapM (Element.wrap d) elements_list
                  end) s)
  = recorder s.
Proof.
  intros Hs. unfold exec, bind in *.
  destruct (search s) as [s1 [os|e]]; cbn [fst] in *; [|exact Hs].
  destruct os as [|o os]; [exact Hs|].
  rewrite <- Hs. apply mapM_wrap_recorder.
Qed.

Lemma with_world_recorder {A} (c : M World A) (s : St) :
  recorder (exec (with_world c) s) = recorder s.
Proof. unfold exec, with_world. destruct (c (world s)); reflexivity. Qed.

(** X8: a lookup is not an event. Whatever a lookup through the driver
    proxy finds, and whether it returns or raises, the recorder is as before:
    no page is opened or finalized and no event is added. The same holds for
    the lookups of an element proxy when the lookup it saved from the wrapped
    element leaves the recorder alone. *)
Theorem lookups_record_nothing (drv : RecordingWebDriver) (self : RecordingWebElement)
    (by_ value : val) (s : St) :
  recorder (exec (Driver.find_element drv by_ value) s) = recorder s
  /\ recorder (exec (Driver.find_elements drv by_ value) s) = recorder s
  /\ (recorder (exec (_original_find_element self by_ value) s) = recorder s ->
      recorder (exec (Element.find_element self by_ value) s) = recorder s)
  /\ (recorder (exec (_original_find_elements self by_ value) s) = recorder s ->
      recorder (exec (Element.find_elements self by_ value) s) = recorder s).
Proof.
  split; [|split; [|split]].
  - apply lookup_one_recorder, with_world_recorder.
  - apply lookup_many_recorder, with_world_recorder.
  - apply lookup_one_recorder.
  - apply lookup_many_recorder.
Qed.

Lemma wrapped_handed_out (d : RecordingWebDriver) (o r : obj) :
  wrapped_or_none d o r -> handed_out d r.
Proof.
  unfold wrapped_or_none, handed_out.
  destruct (obj_truthy o) eqn:Ho.
  - intros (p & -> & <- & <-). right. eauto.
  - intros ->. left. destruct o; [reflexivity|discriminate..].
Qed.

Lemma find_element_handed_out (self : RecordingWebDriver) (by_ value : val)
    (s s' : St) (r : obj) :
  Driver.find_element self by_ value s = (s', Ok r) ->
  handed_out self r /\ recorder s' = recorder s.
Proof.
  intros Hr. split.
  - apply lookup_one_spec in Hr as (s1 & o & _ & Hw & _).
    eapply wrapped_handed_out, Hw.
  - pose proof (lookup_one_recorder self
                  (with_world (drv_find_element (driver self) by_ value)) s
                  (with_world_recorder _ s)) as Hrec.
    unfold exec in Hrec. unfold Driver.find_element in Hr. rewrite Hr in Hrec.
    exact Hrec.
Qed.

Lemma find_elements_handed_out (self : RecordingWebDriver) (by_ value : val)
    (s s' : St) (rs : list obj) :
  Driver.find_elements self by_ value s = (s', Ok rs) ->
  Forall (fun r => is_proxy r = true) rs /\ recorder s' = recorder s.
Proof.
  intros Hr. split.
  - apply lookup_many_spec in Hr as (s1 & os & _ & Hw & _).
    induction Hw as [|o r os rs (p & -> & _) _ IH]; constructor;
      [reflexivity|exact IH].
  - pose proof (lookup_many_recorder self
                  (with_world (drv_find_elements (driver self) by_ value)) s
                  (with_world_recorder _ s)) as Hrec.
    unfold exec in Hrec. unfold Driver.find_elements in Hr. rewrite Hr in Hrec.
    exact Hrec.
Qed.

(** X9: none of the sixteen fixed-strategy lookups of the driver proxy hands
    out an element of the underlying library as it is: a lookup of one
    element returns the no-result value or a proxy made by this driver proxy
    around something found, a lookup of several returns proxies only, and the
    recorder is as before. *)
Theorem by_lookups_hand_out_proxies (self : RecordingWebDriver) (v : val) (s : St) :
  Forall (fun f => forall s' r, f self v s = (s', Ok r) ->
                   handed_out self r /\ recorder s' = recorder s) single_lookups
  /\ Forall (fun f => forall s' rs, f self v s = (s', Ok rs) ->
                      Forall (fun r => is_proxy r = true) rs
                      /\ recorder s' = recorder s) multi_lookups.
Proof.
  split.
  - unfold single_lookups.
    repeat (apply Forall_cons_2; [intros s' r; apply find_element_handed_out|]).
    apply Forall_nil_2.
  - unfold multi_lookups.
    repeat (apply Forall_cons_2; [intros s' rs; apply find_elements_handed_out|]).
    apply Forall_nil_2.
Qed.

End DriverFacts.

(** ** The element proxy: construction, locations and text *)

Section ElementFacts.
Context `{Selenium}.


Lemma add_event_raises (o : obj) (event : dict) (s : St) (e : exn) :
  outcome (_get_event_location o) s = Raise e ->
  _add_event o event s = (s, Raise e).
Proof.
  intros Hloc. unfold _add_event, bind.
  pose proof (get_event_location_state o s) as Hst. unfold outcome in Hloc.
  destruct (_get_event_location o s) as [s1 r1]; simpl in *; subst. reflexivity.
Qed.

(** X11: an event is not recorded for an element whose place cannot be
    worked out, and the notification raises what the computation raised:
    the exception of [location], else that of [size], else [KeyError] for the
    first key that is missing ([x] before [width]), else [TypeError] when the
    width is no number. The session is as before. *)
Theorem event_location_errors (o : obj) (event : dict) (s : St) :
  (forall e, attr_location o (world s) = Raise e ->
     _add_event o event s = (s, Raise e))
  /\ (forall loc e,
        attr_location o (world s) = Ok loc ->
        attr_size o (world s) = Raise e ->
        _add_event o event s = (s, Raise e))
  /\ (forall loc size,
        attr_location o (world s) = Ok loc ->
        attr_size o (world s) = Ok size ->
        dict_get (lit "x") loc = None ->
        _add_event o event s = (s, Raise (KeyError (lit "x"))))
  /\ (forall loc size x,
        attr_location o (world s) = Ok loc ->
        attr_size o (world s) = Ok size ->
        dict_get (lit "x") loc = Some x ->
        dict_get (lit "width") size = None ->
        _add_event o event s = (s, Raise (KeyError (lit "width"))))
  /\ (forall loc size x width,
        attr_location o (world s) = Ok loc ->
        attr_size o (world s) = Ok size ->
        dict_get (lit "x") loc = Some x ->
        dict_get (lit "width") size = Some width ->
        numeric width = false ->
        _add_event o event s = (s, Raise TypeError)).
Proof.
  split; [|split; [|split; [|split]]].
  - intros e Hl. apply add_event_raises.
    unfold outcome, _get_event_location, bind, read_world, of_result.
    rewrite Hl. reflexivity.
  - intros loc e Hl Hs. apply add_event_raises.
    unfold outcome, _get_event_location, bind, read_world, of_result.
    rewrite Hl, Hs. reflexivity.
  - intros loc size Hl Hs Hx. apply add_event_raises.
    unfold outcome, _get_event_location, bind, read_world, of_result, getitem.
    rewrite Hl, Hs, Hx. reflexivity.
  - intros loc size x Hl Hs Hx Hw. apply add_event_raises.
    unfold outcome, _get_event_location, bind, read_world, of_result, getitem.
    rewrite Hl, Hs, Hx, Hw. reflexivity.
  - intros loc size x width Hl Hs Hx Hw Hnum. apply add_event_raises.
    unfold outcome, _get_event_location, bind, read_world, of_result, getitem.
    rewrite Hl, Hs, Hx, Hw. destruct width; try discriminate; reflexivity.
Qed.

Lemma add_half_float (a b v : val) :
  add_half a b = Ok v ->
  exists f, v = VFloat f /\ numeric a = true /\ numeric b = true.
Proof.
  unfold add_half, truediv2, add_float.
  destruct b; try discriminate;
    repeat match goal with
    | |- context [float_of_scaled ?z ?e] => destruct (float_of_scaled z e)
    end; try discriminate;
    destruct a; try discriminate;
    repeat match goal with
    | |- context [float_of_scaled ?z ?e] => destruct (float_of_scaled z e)
    end; try discriminate;
    intros [= <-]; eauto.
Qed.

(** X12: the location of an event has the two keys [x] and [y], in this
    order, and both values are floats, whatever numbers the element reports
    (the halves are computed by true division); it exists only when the four
    numbers read from the element are numbers. *)
Theorem event_location_is_two_floats (o : obj) (s : St) (loc : dict) :
  outcome (_get_event_location o) s = Ok loc ->
  exists fx fy,
    loc = [(lit "x", VFloat fx); (lit "y", VFloat fy)]
    /\ exists location size x y width height,
         attr_location o (world s) = Ok location
         /\ attr_size o (world s) = Ok size
         /\ dict_get (lit "x") location = Some x
         /\ dict_get (lit "y") location = Some y
         /\ dict_get (lit "width") size = Some width
         /\ dict_get (lit "height") size = Some height
         /\ forallb numeric [x; y; width; height] = true.
Proof.
  unfold outcome, _get_event_location, bind, read_world, of_result, getitem, ret.
  destruct (attr_location o (world s)) as [location|]; [|discriminate].
  destruct (attr_size o (world s)) as [size|]; [|discriminate]. cbn [fst snd].
  destruct (dict_get (lit "x") location) as [x|] eqn:Ex; [|discriminate].
  destruct (dict_get (lit "width") size) as [width|] eqn:Ew; [|discriminate].
  destruct (add_half x width) as [cx|] eqn:Hcx; [|discriminate].
  destruct (dict_get (lit "y") location) as [y|] eqn:Ey; [|discriminate].
  destruct (dict_get (lit "height") size) as [height|] eqn:Eh; [|discriminate].
  destruct (add_half y height) as [cy|] eqn:Hcy; [|discriminate].
  intros [= <-].
  apply add_half_float in Hcx as (fx & -> & Hx & Hw).
  apply add_half_float in Hcy as (fy & -> & Hy & Hh).
  exists fx, fy. split; [reflexivity|].
  exists location, size, x, y, width, height.
  do 2 (split; [reflexivity|]). do 4 (split; [assumption|]).
  cbn [forallb]. rewrite Hx, Hy, Hw, Hh. reflexivity.
Qed.

End ElementFacts.

Section TextFacts.
Context `{Selenium}.

Lemma utf8_encode_cp_bad (c : N) :
  encodable_cp c = false -> utf8_encode_cp c = Raise UnicodeEncodeError.
Proof.
  unfold encodable_cp, utf8_encode_cp, is_surrogate. intros Hc.
  apply andb_false_iff in Hc as [Hc|Hc].
  - apply N.ltb_ge in Hc. bool_arith. reflexivity.
  - apply negb_false_iff, andb_true_iff in Hc as [H1 H2].
    apply N.leb_le in H1. apply N.leb_le in H2. bool_arith. reflexivity.
Qed.

Lemma utf8_encode_cp_ok (c : N) :
  encodable_cp c = true -> exists bs, utf8_encode_cp c = Ok bs.
Proof.
  intros Hc. destruct (utf8_decode_encode_cp c [] Hc) as (bs & Hbs & _). eauto.
Qed.

Lemma utf8_encode_bad (s : str) :
  encodable s = false -> utf8_encode s = Raise UnicodeEncodeError.
Proof.
  induction s as [|c s IH]; [discriminate|].
  intros Hs. cbn [utf8_encode].
  destruct (encodable_cp c) eqn:Hc.
  - destruct (utf8_encode_cp_ok c Hc) as [bs ->].
    cbn [encodable forallb] in Hs. rewrite Hc in Hs. rewrite (IH Hs). reflexivity.
  - rewrite (utf8_encode_cp_bad c Hc). reflexivity.
Qed.

Lemma encode_decode_bad (s : str) :
  encodable s = false -> encode_decode s = Raise UnicodeEncodeError.
Proof. intros Hs. unfold encode_decode. rewrite (utf8_encode_bad s Hs). reflexivity. Qed.

Lemma key_text_bad (v : val) :
  key_ok v = false -> Element.key_text v = Raise (bad_key_exn v).
Proof.
  destruct v; simpl; try discriminate; try reflexivity.
  apply encode_decode_bad.
Qed.

Lemma keys_text_bad (text : str) (before after : list val) (v : val) :
  forallb key_ok before = true ->
  key_ok v = false ->
  Element.keys_text text (before ++ v :: after) = Raise (bad_key_exn v).
Proof.
  revert text. induction before as [|v0 before IH]; intros text Hb Hv.
  - simpl. rewrite (key_text_bad v Hv). reflexivity.
  - simpl in Hb. apply andb_true_iff in Hb as [Hv0 Hb].
    simpl. rewrite (key_text_ok v0 Hv0). apply IH; assumption.
Qed.

Lemma first_bad_key (value : list val) :
  forallb key_ok value = false ->
  exists before v after,
    value = before ++ v :: after
    /\ forallb key_ok before = true /\ key_ok v = false.
Proof.
  induction value as [|v value IH]; [discriminate|].
  simpl. destruct (key_ok v) eqn:Hv.
  - intros Hrest. destruct (IH Hrest) as (before & v' & after & -> & Hb & Hv').
    exists (v :: before), v', after. simpl. rewrite Hv. auto.
  - intros _. exists [], v, value. auto.
Qed.



End TextFacts.

(** ** Interface mirroring: repetition, cycles and chains *)

Section MirrorFacts.
Import Metaprog.

Lemma mirror_run_spec (from_ to : nat) (ignore_list : option (list string))
    (override_existing : bool) (st : store) :
  let ignored := match ignore_list with Some l => l | None => [] end in
  let run := create_proxy_interface from_ to ignore_list override_existing in
  outcome run st = Ok tt
  /\ (forall name,
        exec run st from_ !! name
        = if mirrored st from_ to ignored override_existing name
          then Some (Forwarded from_ to name) else st from_ !! name)
  /\ (forall o, o <> from_ -> exec run st o = st o).
Proof.
  intros ignored run.
  assert (Hnames : forall n, n ∈ (map_to_list (st to)).*1 -> is_Some (st to !! n)).
  { intros n Hn. apply list_elem_of_fmap in Hn as ([n' a] & -> & Hn).
    apply elem_of_map_to_list in Hn. simpl. eauto. }
  destruct (for_each_mirror_spec from_ to ignored override_existing
              (map_to_list (st to)).*1 st (NoDup_fst_map_to_list _) Hnames)
    as (st1 & Hrun & Hfrom & Hrest).
  assert (Hexec : run st = (st1, Ok tt)).
  { subst run. unfold create_proxy_interface, bind, dir, of_result.
    fold ignored. exact Hrun. }
  unfold exec, outcome. rewrite Hexec. cbn [fst snd].
  split; [reflexivity|]. split; [|exact Hrest].
  intros name. rewrite Hfrom.
  destruct (mirrored st from_ to ignored override_existing name) eqn:Hm;
    [|rewrite andb_false_r; reflexivity].
  rewrite bool_decide_eq_true_2; [reflexivity|].
  unfold mirrored in Hm.
  destruct (st to !! name) as [a|] eqn:Ha.
  - apply list_elem_of_fmap. exists (name, a). split; [reflexivity|].
    apply elem_of_map_to_list, Ha.
  - rewrite andb_false_r in Hm. discriminate.
Qed.


Lemma call_self_forwarded (depth : nat) (st : store) (o : nat) (name : string)
    (args : list val) (kwargs : list (string * val)) :
  st o !! name = Some (Forwarded o o name) ->
  call depth st (Forwarded o o name) args kwargs = Raise RecursionError.
Proof.
  intros Hself. induction depth as [|depth IH]; [reflexivity|].
  simpl. rewrite Hself. exact IH.
Qed.



End MirrorFacts.

(** ** Properties of the proxy classes *)

Section PropertyFacts.
Import Props.
Variable builtin : val -> string -> result ref.

Lemma getattr_unfold (depth : nat) (h : Heap) (o : nat) (name : string) :
  getattr builtin depth h o name
  = match classes h (class_of h o) !! name with
    | Some (Property property_name target_name _) =>
        match depth with
        | O => Raise RecursionError
        | S depth' =>
            match getattr builtin depth' h o target_name with
            | Ok (Obj t) => getattr builtin depth' h t property_name
            | Ok (Plain v) => builtin v property_name
            | Raise e => Raise e
            end
        end
    | Some (Other v) =>
        match fields h o !! name with Some v' => Ok v' | None => Ok v end
    | None =>
        match fields h o !! name with
        | Some v => Ok v
        | None => Raise (AttributeError name)
        end
    end.
Proof. destruct depth; reflexivity. Qed.

Lemma setattr_unfold (depth : nat) (o : nat) (name : string) (v : ref) (h : Heap) :
  setattr builtin depth o name v h
  = match classes h (class_of h o) !! name with
    | Some (Property property_name target_name is_settable) =>
        if is_settable then
          match depth with
          | O => (h, Raise RecursionError)
          | S depth' =>
              match getattr builtin depth' h o target_name with
              | Ok (Obj t) => setattr builtin depth' t property_name v h
              | Ok (Plain _) => (h, Raise (AttributeError property_name))
              | Raise e => (h, Raise e)
              end
          end
        else (h, Raise (AttributeError name))
    | _ => (set_field o name v h, Ok tt)
    end.
Proof. destruct depth; reflexivity. Qed.

Lemma bind_properties_spec (keep : bool) (names : list string) (target_name : string)
    (is_settable : bool) (self : nat) (h : Heap) :
  exists h',
    bind_properties keep names target_name is_settable self h = (h', Ok tt)
    /\ class_of h' = class_of h
    /\ fields h' = fields h
    /\ (forall c, c <> class_of h self -> classes h' c = classes h c)
    /\ (forall name,
          classes h' (class_of h self) !! name
          = match classes h (class_of h self) !! name with
            | Some a =>
                if negb keep && bool_decide (name ∈ names)
                then Some (Property name target_name is_settable) else Some a
            | None =>
                if bool_decide (name ∈ names)
                then Some (Property name target_name is_settable) else None
            end).
Proof.
  revert h. induction names as [|n names IH]; intros h.
  - exists h. split; [reflexivity|]. do 3 (split; [reflexivity|]).
    intros name. rewrite andb_false_r. destruct (classes h _ !! name); reflexivity.
  - set (c := class_of h self).
    set (h1 := if keep && bool_decide (is_Some (classes h c !! n)) then h
               else set_class_attr c n (Property n target_name is_settable) h).
    assert (Hstep : bind_properties keep (n :: names) target_name is_settable self h
                    = bind_properties keep names target_name is_settable self h1).
    { unfold bind_properties. cbn [Metaprog.for_each]. unfold bind at 1.
      subst h1. destruct keep; cbn [andb].
      - unfold bind, class_, hasattr_class, of_result. fold c.
        destruct (bool_decide (is_Some (classes h c !! n))); reflexivity.
      - reflexivity. }
    assert (Hc1 : class_of h1 = class_of h).
    { subst h1. destruct (keep && _); reflexivity. }
    assert (Hf1 : fields h1 = fields h).
    { subst h1. destruct (keep && _); reflexivity. }
    destruct (IH h1) as (h' & Hrun & Hc & Hf & Hother & Hcls).
    rewrite Hc1 in Hother, Hcls. fold c in Hother, Hcls.
    exists h'. split; [rewrite Hstep; exact Hrun|].
    split; [congruence|]. split; [congruence|]. split.
    + intros c' Hc'. rewrite (Hother c' Hc'). subst h1.
      destruct (keep && _); [reflexivity|]. simpl.
      destruct (decide (c' = c)); [contradiction|reflexivity].
    + intros name. rewrite Hcls.
      assert (H1 : classes h1 c !! name
                   = if decide (name = n)
                     then (if keep && bool_decide (is_Some (classes h c !! n))
                           then classes h c !! n
                           else Some (Property n target_name is_settable))
                     else classes h c !! name).
      { subst h1. destruct (keep && bool_decide (is_Some (classes h c !! n))).
        - destruct (decide (name = n)) as [->|]; reflexivity.
        - simpl. destruct (decide (c = c)); [|contradiction].
          destruct (decide (name = n)) as [->|Hne];
            [apply lookup_insert_eq|apply lookup_insert_ne; congruence]. }
      rewrite H1.
      destruct (decide (name = n)) as [->|Hne].
      * rewrite (bool_decide_eq_true_2 (n ∈ n :: names)) by left.
        rewrite andb_true_r.
        destruct (classes h c !! n) as [a|] eqn:Ha.
        -- rewrite (bool_decide_eq_true_2 (is_Some (Some a))) by eauto.
           rewrite andb_true_r.
           destruct keep; cbn [negb andb]; [reflexivity|].
           destruct (bool_decide (n ∈ names)); reflexivity.
        -- rewrite (bool_decide_eq_false_2 (is_Some None)) by (intros [? ?]; discriminate).
           rewrite andb_false_r.
           destruct (negb keep && bool_decide (n ∈ names)); reflexivity.
      * assert (Hiff : bool_decide (name ∈ n :: names) = bool_decide (name ∈ names)).
        { apply bool_decide_ext. rewrite elem_of_cons. tauto. }
        rewrite Hiff. reflexivity.
Qed.

Lemma element_set_properties_spec (self : nat) (h : Heap) :
  exists h',
    Element.set_properties self h = (h', Ok tt)
    /\ class_of h' = class_of h
    /\ fields h' = fields h
    /\ (forall c, c <> class_of h self -> classes h' c = classes h c)
    /\ (forall name,
          classes h' (class_of h self) !! name
          = if bool_decide (name ∈ Element._READONLY_PROPERTIES)
            then Some (Property name "element" false)
            else classes h (class_of h self) !! name).
Proof.
  destruct (bind_properties_spec false Element._READONLY_PROPERTIES "element" false
              self h) as (h' & Hrun & Hc & Hf & Hother & Hcls).
  exists h'. split; [exact Hrun|]. do 3 (split; [assumption|]).
  intros name. rewrite Hcls. cbn [negb andb].
  destruct (classes h (class_of h self) !! name);
    destruct (bool_decide (name ∈ Element._READONLY_PROPERTIES)); reflexivity.
Qed.

(** X18: after the constructor of an element proxy has set the properties
    of the class, reading one of the ten read-only names on the proxy gives
    what reading that name on the wrapped element gives (a value, or the
    exception), whatever the proxy itself has under the name, and setting it
    raises [AttributeError] and changes nothing. Objects and the attributes of
    other classes are as before. *)
Theorem element_properties_read_through (self t : nat) (h : Heap) (name : string)
    (depth : nat) (v : ref) :
  name ∈ Element._READONLY_PROPERTIES ->
  classes h (class_of h self) !! "element" = None ->
  fields h self !! "element" = Some (Obj t) ->
  let h' := exec (Element.set_properties self) h in
  outcome (Element.set_properties self) h = Ok tt
  /\ getattr builtin (S depth) h' self name = getattr builtin depth h' t name
  /\ setattr builtin depth self name v h' = (h', Raise (AttributeError name))
  /\ fields h' = fields h
  /\ (forall c, c <> class_of h self -> classes h' c = classes h c).
Proof.
  intros Hname Hcls Hfld h'.
  destruct (element_set_properties_spec self h) as (h1 & Hrun & Hc & Hf & Hother & Hprop).
  subst h'. unfold exec, outcome. rewrite Hrun. cbn [fst snd].
  assert (Hp : classes h1 (class_of h1 self) !! name = Some (Property name "element" false)).
  { rewrite Hc, Hprop, bool_decide_eq_true_2 by exact Hname. reflexivity. }
  assert (He : getattr builtin depth h1 self "element" = Ok (Obj t)).
  { rewrite getattr_unfold, Hc, Hprop, Hcls, Hf, Hfld. reflexivity. }
  split; [reflexivity|]. split; [|split; [|split; assumption]].
  - cbn [Props.getattr]. rewrite Hp, He. reflexivity.
  - rewrite setattr_unfold, Hp. reflexivity.
Qed.

Lemma driver_set_properties_spec (self : nat) (h : Heap) :
  exists h',
    Driver.set_properties self h = (h', Ok tt)
    /\ class_of h' = class_of h
    /\ fields h' = fields h
    /\ (forall c, c <> class_of h self -> classes h' c = classes h c)
    /\ (forall name,
          classes h' (class_of h self) !! name
          = match classes h (class_of h self) !! name with
            | Some a => Some a
            | None =>
                if bool_decide (name ∈ Driver._READONLY_PROPERTIES)
                then Some (Property name "driver" false)
                else if bool_decide (name ∈ Driver._SETTABLE_PROPERTIES)
                     then Some (Property name "driver" true)
                     else None
            end).
Proof.
  destruct (bind_properties_spec true Driver._READONLY_PROPERTIES "driver" false
              self h) as (h1 & Hrun1 & Hc1 & Hf1 & Hother1 & Hcls1).
  destruct (bind_properties_spec true Driver._SETTABLE_PROPERTIES "driver" true
              self h1) as (h2 & Hrun2 & Hc2 & Hf2 & Hother2 & Hcls2).
  rewrite Hc1 in Hother2, Hcls2.
  exists h2. split.
  { change (Driver.set_properties self)
      with (bind_properties true Driver._READONLY_PROPERTIES "driver" false self ;;;
            bind_properties true Driver._SETTABLE_PROPERTIES "driver" true self).
    unfold bind at 1. rewrite Hrun1. exact Hrun2. }
  split; [congruence|]. split; [congruence|]. split.
  - intros c Hc. rewrite (Hother2 c Hc). apply Hother1, Hc.
  - intros name. rewrite Hcls2, Hcls1. cbn [negb andb].
    destruct (classes h (class_of h self) !! name); [reflexivity|].
    destruct (bool_decide (name ∈ Driver._READONLY_PROPERTIES)); reflexivity.
Qed.

(** X19: the two loops that end the constructor of a driver proxy bind a
    property for each of the read-only and settable names the class does not
    have yet, read-only for the first list and settable for the second, both
    forwarding to [driver]; an attribute the class has already is kept as it
    is. Objects and other classes are not touched, so making a second proxy
    changes nothing more. *)
Theorem driver_properties_installed (self : nat) (h : Heap) :
  let c := class_of h self in
  let h' := exec (Driver.set_properties self) h in
  outcome (Driver.set_properties self) h = Ok tt
  /\ class_of h' = class_of h
  /\ fields h' = fields h
  /\ (forall c', c' <> c -> classes h' c' = classes h c')
  /\ (forall name,
        classes h' c !! name
        = match classes h c !! name with
          | Some a => Some a
          | None =>
              if bool_decide (name ∈ Driver._READONLY_PROPERTIES)
              then Some (create_proxy_property name "driver" false)
              else if bool_decide (name ∈ Driver._SETTABLE_PROPERTIES)
                   then Some (create_proxy_property name "driver" true)
                   else None
          end)
  /\ (forall c', classes (exec (Driver.set_properties self) h') c' = classes h' c').
Proof.
  intros c h'.
  destruct (driver_set_properties_spec self h) as (h1 & Hrun & Hc & Hf & Hother & Hprop).
  subst h'. unfold exec, outcome. rewrite Hrun. cbn [fst snd].
  split; [reflexivity|]. do 4 (split; [assumption|]).
  intros c'.
  destruct (driver_set_properties_spec self h1) as (h2 & Hrun2 & _ & _ & Hother2 & Hprop2).
  rewrite Hrun2. cbn [fst]. rewrite Hc in Hother2, Hprop2. fold c in Hother2, Hprop2, Hprop.
  destruct (decide (c' = c)) as [->|Hne]; [|apply Hother2, Hne].
  apply map_eq. intros name. rewrite Hprop2.
  destruct (classes h1 c !! name) as [a|] eqn:Ha; [reflexivity|].
  rewrite Hprop in Ha.
  destruct (classes h c !! name); [discriminate|].
  destruct (bool_decide (name ∈ Driver._READONLY_PROPERTIES)); [discriminate|].
  destruct (bool_decide (name ∈ Driver._SETTABLE_PROPERTIES)); [discriminate|].
  reflexivity.
Qed.

Lemma getattr_field (depth : nat) (h : Heap) (o : nat) (name : string) (v : ref) :
  classes h (class_of h o) !! name = None ->
  fields h o !! name = Some v ->
  getattr builtin depth h o name = Ok v.
Proof. intros Hc Hf. rewrite getattr_unfold, Hc, Hf. reflexivity. Qed.


End PropertyFacts.

(** ** The script *)

Section Preservation.
Context {S : Type}.

Lemma preserves_bind {A B} (P : S -> Prop) (c : M S A) (k : A -> M S B) :
  preserves P c -> (forall a, preserves P (k a)) -> preserves P (bind c k).
Proof.
  intros Hc Hk s Hs. specialize (Hc s Hs). unfold exec, bind in *.
  destruct (c s) as [s1 [a|e]]; cbn [fst] in *; [apply Hk, Hc|exact Hc].
Qed.

Lemma exec_bind_preserves {A B} (P : S -> Prop) (c : M S A) (k : A -> M S B) (s : S) :
  P (exec c s) -> (forall a, preserves P (k a)) -> P (exec (bind c k) s).
Proof.
  intros Hc Hk. unfold exec, bind in *.
  destruct (c s) as [s1 [a|e]]; cbn [fst] in *; [apply Hk, Hc|exact Hc].
Qed.

Lemma preserves_same {A} (P : S -> Prop) (c : M S A) :
  (forall s, exec c s = s) -> preserves P c.
Proof. intros Hc s Hs. rewrite Hc. exact Hs. Qed.

End Preservation.

Section SessionPreservation.
Context `{Selenium}.

(** A computation that leaves the recorder as it is keeps everything that
    is about the recorder only. *)
Lemma preserves_recorder {A} (P : Recorder -> Prop) (c : M St A) :
  (forall s, recorder (exec c s) = recorder s) ->
  preserves (fun s => P (recorder s)) c.
Proof. intros Hc s Hs. rewrite Hc. exact Hs. Qed.

Lemma obj_proxy_ind (P : obj -> Prop) :
  P ONone ->
  (forall e, P (ORaw e)) ->
  (forall p, P (element p) -> P (OProxy p)) ->
  forall o, P o.
Proof.
  intros HN HR HP. fix IH 1. intros [|e|p].
  - exact HN.
  - exact (HR e).
  - apply HP. destruct p as [o d f g]. exact (IH o).
Qed.

Lemma first_page_navigate (url u : str) :
  preserves (fun s => first_page_is url (recorder s)) (on_navigate_to_url u).
Proof.
  intros s [Hinv [rest Hrest]]. split; [apply open_page_apart_navigate, Hinv|].
  rewrite map_app. cbn [List.map]. rewrite (page_url_navigate u s).
  rewrite trace_navigate by apply Hinv.
  destruct (trace (recorder s)) as [|page pages] eqn:Ht.
  - cbn [app List.map] in Hrest. injection Hrest as Hurl _.
    rewrite (page_url_truthy _ _ Hurl). cbn [app List.map]. rewrite Hurl. eauto.
  - cbn [app List.map] in Hrest. injection Hrest as Hurl _.
    destruct (truthy _); cbn [app List.map]; rewrite Hurl; eauto.
Qed.

Lemma first_page_add_event (url : str) (o : obj) (event : dict) :
  preserves (fun s => first_page_is url (recorder s)) (_add_event o event).
Proof.
  intros s [Hinv [rest Hrest]]. unfold exec.
  destruct (add_event_cases o event s) as [[e ->]|(loc & l & _ & _ & ->)];
    cbn [fst]; [split; eauto|].
  split.
  - pose proof (open_page_apart_add_event o event s Hinv) as Hinv'.
    unfold exec in Hinv'.
    destruct (add_event_cases o event s) as [[e He]|(loc' & l' & _ & _ & He)];
      rewrite He in Hinv'; cbn [fst] in Hinv'.
    + exact Hinv.
    + unfold open_page_apart, wf in *. exact Hinv.
  - exists rest. rewrite map_app in *. cbn [List.map] in *.
    rewrite page_url_recorded, trace_recorded by apply Hinv. exact Hrest.
Qed.

Lemma first_page_call_click (url : str) (o : obj) :
  preserves (fun s => first_page_is url (recorder s)) (Element.call_click o).
Proof.
  induction o as [|e|p IH] using obj_proxy_ind.
  - apply preserves_same. reflexivity.
  - apply (preserves_recorder (first_page_is url)). intros s. apply with_world_recorder.
  - cbn [Element.call_click].
    apply preserves_bind; [apply first_page_add_event|intros _].
    apply preserves_bind; [exact IH|intros _].
    apply preserves_bind; [apply preserves_same; reflexivity|intros u].
    apply first_page_navigate.
Qed.

Lemma first_page_call_send_keys (url : str) (o : obj) (value : list val) :
  preserves (fun s => first_page_is url (recorder s)) (Element.call_send_keys o value).
Proof.
  induction o as [|e|p IH] using obj_proxy_ind.
  - apply preserves_same. reflexivity.
  - apply (preserves_recorder (first_page_is url)). intros s. apply with_world_recorder.
  - cbn [Element.call_send_keys].
    apply preserves_bind; [apply preserves_same; reflexivity|intros text].
    apply preserves_bind; [apply first_page_add_event|intros _].
    exact IH.
Qed.

Lemma first_page_find_element (url : str) (d : RecordingWebDriver) (by_ value : val) :
  preserves (fun s => first_page_is url (recorder s)) (Driver.find_element d by_ value).
Proof.
  apply (preserves_recorder (first_page_is url)). intros s.
  apply lookup_one_recorder, with_world_recorder.
Qed.

End SessionPreservation.

Section ScriptFacts.
Context `{ScriptHost}.

Lemma in_session_preserves {A} (P : St -> Prop) (c : M St A) :
  preserves P c -> preserves (fun r => P (session r)) (in_session c).
Proof.
  intros Hc r Hr. specialize (Hc (session r) Hr).
  unfold exec, in_session in *. destruct (c (session r)). exact Hc.
Qed.

Lemma in_session_stdout {A} (out : list string) (c : M St A) :
  preserves (fun r => stdout r = out) (in_session c).
Proof.
  intros r Hr. unfold exec, in_session. destruct (c (session r)). exact Hr.
Qed.

Lemma in_session_same {A} (c : M St A) (r : Run) :
  (forall s, exec c s = s) -> exec (in_session c) r = r.
Proof.
  intros Hc. specialize (Hc (session r)). unfold exec, in_session in *.
  destruct (c (session r)) as [s' a]. cbn [fst] in *. subst. destruct r; reflexivity.
Qed.

(** The body of the script after its first statement. *)
Lemma script_rest_first_page
    (k : M Run unit) (browser : RecordingWebDriver) :
  script_body browser = (in_session (Driver.get browser the_url) ;;; k) ->
  preserves (fun r => first_page_is the_url (recorder (session r))) k ->
  forall r, recorder (session r) = fresh_recorder ->
  first_page_is the_url (recorder (session (exec (script_body browser) r))).
Proof.
  intros -> Hk r Hr.
  apply (exec_bind_preserves (fun r => first_page_is the_url (recorder (session r))));
    [|intros _; exact Hk].
  unfold exec, in_session, Driver.get, bind.
  rewrite on_navigate_to_url_spec. unfold with_world. cbn [world recorder].
  destruct (drv_get (driver browser) the_url (world (session r))) as [w' v].
  cbn [fst session recorder]. rewrite Hr. cbn.
  split; [split; [split|]|].
  - constructor.
  - simpl. lia.
  - apply not_elem_of_nil.
  - exists []. reflexivity.
Qed.

Lemma script_body_first_page (browser : RecordingWebDriver) (r : Run) :
  recorder (session r) = fresh_recorder ->
  first_page_is the_url (recorder (session (exec (script_body browser) r))).
Proof.
  apply (script_rest_first_page _ browser eq_refl).
  pose (P := fun s : St => first_page_is the_url (recorder s)).
  assert (Hsame : forall A (c : M St A), (forall s, exec c s = s) ->
            preserves (fun r => P (session r)) (in_session c)).
  { intros A c Hc. apply in_session_preserves, preserves_same, Hc. }
  apply preserves_bind;
    [apply (in_session_preserves P), first_page_find_element|intros signup_link].
  apply preserves_bind; [apply Hsame; reflexivity|intros link_location].
  apply preserves_bind; [apply Hsame; reflexivity|intros x].
  apply preserves_bind; [apply Hsame; reflexivity|intros y].
  apply preserves_bind; [apply Hsame; reflexivity|intros y'].
  apply preserves_bind;
    [apply (in_session_preserves P), (preserves_recorder (first_page_is the_url));
     intros s; apply with_world_recorder|intros _].
  apply preserves_bind;
    [apply (in_session_preserves P), first_page_call_click|intros _].
  apply preserves_bind;
    [apply (in_session_preserves P), first_page_find_element|intros button].
  apply preserves_bind;
    [apply (in_session_preserves P), first_page_call_click|intros _].
  apply preserves_bind;
    [apply (in_session_preserves P), first_page_find_element|intros field].
  apply (in_session_preserves P), first_page_call_send_keys.
Qed.

Lemma script_body_stdout (browser : RecordingWebDriver) (r : Run) :
  stdout (exec (script_body browser) r) = stdout r.
Proof.
  assert (Hp : preserves (fun r' => stdout r' = stdout r) (script_body browser)).
  { unfold script_body.
    repeat (apply preserves_bind; [apply in_session_stdout|intros ?]).
    apply in_session_stdout. }
  apply Hp. reflexivity.
Qed.

(** What the [finally] block does, from the state [r] the body left. *)
Lemma script_finally_spec (browser : RecordingWebDriver) (r : Run) :
  let closed := append_current_page (recorder (session r)) in
  let quit := drv_quit (driver browser) (world (session r)) in
  script_finally browser r
  = match snd quit with
    | Ok _ =>
        ({| session := {| recorder := closed; world := fst quit |};
            stdout := stdout r ++ [Json.dumps (VList (List.map VDict (trace closed)))] |},
         Ok tt)
    | Raise e =>
        ({| session := {| recorder := closed; world := fst quit |};
            stdout := stdout r |}, Raise e)
    end.
Proof.
  unfold script_finally, bind, in_session, close, with_recorder, with_world, modify,
    export, read_recorder, print.
  cbn [session recorder world stdout].
  destruct (drv_quit (driver browser) (world (session r))) as [w' [v|e]];
    reflexivity.
Qed.

Lemma try_finally_spec {S A} (body : M S A) (final : M S unit) (s : S) :
  try_finally body final s
  = (exec final (exec body s),
     match outcome final (exec body s) with
     | Ok _ => outcome body s
     | Raise e => Raise e
     end).
Proof.
  unfold try_finally, exec, outcome. destruct (body s) as [s1 r]. cbn [fst snd].
  destruct (final s1) as [s2 [[]|e]]; reflexivity.
Qed.

Lemma basic_script_started (r : Run) (w1 : World) (d : Drv) :
  Firefox (world (session r)) = (w1, Ok d) ->
  let browser := {| driver := d |} in
  let started :=
    {| session := {| recorder := fresh_recorder; world := w1 |};
       stdout := stdout r |} in
  basic_script r = try_finally (script_body browser) (script_finally browser) started.
Proof.
  intros Hff. unfold basic_script, bind at 1, in_session at 1, with_world.
  rewrite Hff. reflexivity.
Qed.



Lemma in_session_eq {A} (c : M St A) (r : Run) (s' : St) (a : result A) :
  c (session r) = (s', a) ->
  in_session c r = ({| session := s'; stdout := stdout r |}, a).
Proof. intros Hc. unfold in_session. rewrite Hc. reflexivity. Qed.

Lemma proxy_location (p : RecordingWebElement) (e : Elem) (s : St) :
  element p = ORaw e ->
  _get_event_location (OProxy p) s = _get_event_location (ORaw e) s.
Proof.
  intros He. unfold _get_event_location. cbn [attr_location attr_size].
  rewrite He. reflexivity.
Qed.

Lemma location_of_ok (e : Elem) (s : St) :
  is_ok (outcome (_get_event_location (ORaw e)) s) = true ->
  exists loc x y y',
    raw_location e (world s) = Ok loc
    /\ getitem "x" loc = Ok x /\ getitem "y" loc = Ok y /\ sub_int y 70 = Ok y'.
Proof.
  unfold outcome, _get_event_location, bind, read_world, of_result, ret.
  cbn [attr_location attr_size].
  destruct (raw_location e (world s)) as [loc|]; [|discriminate].
  destruct (raw_size e (world s)) as [size|]; [|discriminate]. cbn [fst snd].
  destruct (getitem "x" loc) as [x|] eqn:Ex; [|discriminate].
  destruct (getitem "width" size) as [width|]; [|discriminate].
  destruct (add_half x width) as [cx|] eqn:Hcx; [|discriminate].
  destruct (getitem "y" loc) as [y|] eqn:Ey; [|discriminate].
  destruct (getitem "height" size) as [height|]; [|discriminate].
  destruct (add_half y height) as [cy|] eqn:Hcy; [|discriminate].
  intros _. apply add_half_float in Hcy as (fy & _ & Hy & _).
  exists loc, x, y.
  assert (Hsub : exists y', sub_int y 70 = Ok y')
    by (destruct y; try discriminate; eexists; reflexivity).
  destruct Hsub as [y' Hsub]. exists y'. auto.
Qed.

Lemma find_raw (d : Drv) (by_ value : val) (s : St) :
  cooperative d ->
  exists w' p e,
    Driver.find_element {| driver := d |} by_ value s
    = ({| recorder := recorder s; world := w' |}, Ok (OProxy p))
    /\ element p = ORaw e /\ _driver p = {| driver := d |}.
Proof.
  intros Hco. unfold Driver.find_element, bind, with_world. cbn [driver].
  destruct (coop_find d Hco by_ value (world s)) as [e He].
  destruct (drv_find_element d by_ value (world s)) as [w1 r1]. cbn [snd] in He.
  subst r1. cbn [obj_truthy].
  set (s1 := {| recorder := recorder s; world := w1 |}).
  destruct (wrap_total {| driver := d |} (ORaw e) s1 (coop_lookups d Hco))
    as (s2 & r & Hw).
  pose proof (wrap_recorder {| driver := d |} (ORaw e) s1) as Hrec.
  pose proof (wrap_spec _ _ _ _ _ Hw) as (p & -> & Hel & Hdr).
  unfold exec in Hrec. rewrite Hw in *. cbn [fst] in Hrec.
  exists (world s2), p, e. split; [|auto].
  destruct s2 as [r2 w2]. cbn [recorder world] in *. subst r2. reflexivity.
Qed.

Lemma click_raw_proxy (d : Drv) (p : RecordingWebElement) (e : Elem) (s : St)
    (l : list val) :
  cooperative d ->
  element p = ORaw e ->
  _driver p = {| driver := d |} ->
  current_events (recorder s) = Some (VList l) ->
  exists loc u w',
    Element.call_click (OProxy p) s
    = ({| recorder :=
            bind_current_page (new_page u)
              (append_current_page (recorder (recorded loc l click_event s)));
          world := w' |}, Ok tt).
Proof.
  intros Hco He Hd Hev.
  pose proof (coop_location d Hco e s) as Hloc.
  unfold outcome in Hloc. rewrite <- (proxy_location p e s He) in Hloc.
  fold (outcome (_get_event_location (OProxy p)) s) in Hloc.
  destruct (outcome (_get_event_location (OProxy p)) s) as [loc|] eqn:Hl;
    [|discriminate].
  pose proof (coop_click d Hco e (world s)) as Hclick.
  destruct (raw_click e (world s)) as [w' rc] eqn:Hrc. cbn [snd] in Hclick. subst rc.
  pose proof (coop_url d Hco w') as Hurl.
  destruct (drv_current_url d w') as [u|] eqn:Hu; [|discriminate].
  exists loc, u, w'.
  cbn [Element.call_click]. unfold bind at 1. unfold on_click.
  rewrite (add_event_ok _ _ s loc l Hl Hev). fold click_event.
  set (s1 := recorded loc l click_event s).
  assert (Hw1 : world s1 = world s) by reflexivity.
  assert (Hopen : page_open (recorder s1)).
  { eexists. subst s1. unfold recorded; simpl.
    destruct (decide (_ = _)); [|contradiction]. apply dict_get_set_eq. }
  clearbody s1.
  unfold bind at 1. rewrite He. cbn [Element.call_click].
  unfold with_world. rewrite Hw1, Hrc.
  unfold bind, read_world, of_result. cbn [world]. rewrite Hd. cbn [driver].
  rewrite Hu, on_navigate_to_url_spec. cbn [recorder world].
  rewrite (page_open_truthy _ Hopen). reflexivity.
Qed.

Lemma send_keys_raw_proxy (d : Drv) (p : RecordingWebElement) (e : Elem) (s : St)
    (l : list val) (text : string) :
  cooperative d ->
  element p = ORaw e ->
  current_events (recorder s) = Some (VList l) ->
  exists loc w',
    Element.call_send_keys (OProxy p) [VStr (lit text)] s
    = ({| recorder := recorder (recorded loc l (send_keys_event (lit text)) s);
          world := w' |}, Ok tt).
Proof.
  intros Hco He Hev.
  pose proof (coop_location d Hco e s) as Hloc.
  unfold outcome in Hloc. rewrite <- (proxy_location p e s He) in Hloc.
  fold (outcome (_get_event_location (OProxy p)) s) in Hloc.
  destruct (outcome (_get_event_location (OProxy p)) s) as [loc|] eqn:Hl;
    [|discriminate].
  pose proof (coop_send_keys d Hco e [VStr (lit text)] (world s)) as Hkeys.
  destruct (raw_send_keys e [VStr (lit text)] (world s)) as [w' rc] eqn:Hrc.
  cbn [snd] in Hkeys. subst rc.
  exists loc, w'.
  cbn [Element.call_send_keys]. unfold bind at 1, of_result.
  rewrite (keys_text_ok [VStr (lit text)] []) by (simpl; rewrite encodable_lit; reflexivity).
  cbn [List.map concat key_str app]. rewrite app_nil_r.
  unfold bind. unfold on_send_keys. fold (send_keys_event (lit text)).
  rewrite (add_event_ok _ _ s loc l Hl Hev).
  set (s1 := recorded loc l (send_keys_event (lit text)) s).
  assert (Hw1 : world s1 = world s) by reflexivity.
  clearbody s1.
  rewrite He. cbn [Element.call_send_keys]. unfold with_world.
  rewrite Hw1, Hrc. reflexivity.
Qed.

Lemma get_cooperative (d : Drv) (url : str) (s : St) :
  cooperative d ->
  exists w' v,
    Driver.get {| driver := d |} url s
    = ({| recorder :=
            bind_current_page (new_page url)
              (if truthy (VDict (heap (recorder s) (_current_page (recorder s))))
               then append_current_page (recorder s) else recorder s);
          world := w' |}, Ok v).
Proof.
  intros Hco. unfold Driver.get, bind. rewrite on_navigate_to_url_spec.
  unfold with_world. cbn [world recorder driver].
  pose proof (coop_get d Hco url (world s)) as Hget.
  destruct (drv_get d url (world s)) as [w' [v|e]]; [|discriminate].
  eauto.
Qed.


End ScriptFacts.

(** * Scenarios *)

Import Toy.

(** C5, on the small session: a click notified right after [start]. *)
Lemma event_without_page_witness :
  no_page_open (recorder s0)
  /\ exists e, on_click e0 s0 = (s0, Raise e).
Proof.
  split; [reflexivity|].
  apply (event_without_page e0 [] s0). reflexivity.
Defined.

(** C2, as stated, fails: in [s1] the open page has an empty event sequence,
    and the next navigation notification appends it to the trace. *)
Lemma navigation_does_not_coalesce :
  current_events (recorder s1) = Some (VList [])
  /\ trace (recorder s1) = []
  /\ trace (recorder (exec (on_navigate_to_url (lit "b")) s1))
     = [ [(lit "url", VStr (lit "a")); (lit "recorded_events", VList [])] ]
  /\ ~ (forall (s : St) (url : str),
          current_events (recorder s) = Some (VList []) ->
          trace (recorder (exec (on_navigate_to_url url) s)) = trace (recorder s)).
Proof.
  repeat split; try reflexivity.
  intros Hclaim. specialize (Hclaim s1 (lit "b") eq_refl).
  vm_compute in Hclaim. discriminate.
Qed.

(** C2, on the small session. *)
Lemma navigation_finalizes_open_page_witness :
  wf (recorder s1)
  /\ page_open (recorder s1)
  /\ trace (recorder (exec (on_navigate_to_url (lit "b")) s1))
     = trace (recorder s1) ++ [heap (recorder s1) (_current_page (recorder s1))].
Proof.
  assert (Hwf : wf (recorder s1)).
  { split; [constructor | vm_compute; lia]. }
  assert (Hopen : page_open (recorder s1)) by (exists []; reflexivity).
  split; [exact Hwf|]. split; [exact Hopen|].
  apply (navigation_finalizes_open_page (lit "b") s1 Hwf). exact Hopen.
Defined.

(** C6, on the small session: a click on element [0] in [s1]. *)
Lemma event_location_is_center_witness :
  current_events (recorder (exec (on_click e0) s1))
  = Some (VList [VDict [(lit "event_type", VStr (lit "click"));
                        (lit "location",
                         VDict [(lit "x", VFloat 60); (lit "y", VFloat 40)])]]).
Proof.
  apply (event_location_is_center e0 s1
           [(lit "x", VInt 10); (lit "y", VInt 20)]
           [(lit "height", VInt 40); (lit "width", VInt 100)]
           (VInt 10) (VInt 20) (VInt 100) (VInt 40) (VFloat 60) (VFloat 40) []);
    reflexivity.
Defined.

(** C3, on the small session: the click scrolls the page, so the element is at
    x = 11 afterwards, yet the event has the location computed from x = 10;
    the page with the event is finalized and a page for the driver's url is
    open. *)
Lemma click_order_witness :
  let s' := exec (Element.click (proxy 0)) s1 in
  outcome (Element.click (proxy 0)) s1 = Ok tt
  /\ trace (recorder s')
     = [ [(lit "url", VStr (lit "a"));
          (lit "recorded_events",
           VList [VDict [(lit "event_type", VStr (lit "click"));
                         (lit "location",
                          VDict [(lit "x", VFloat 60); (lit "y", VFloat 40)])]])] ]
  /\ heap (recorder s') (_current_page (recorder s')) = new_page (lit "http://example/")
  /\ attr_location e0 (world s') = Ok [(lit "x", VInt 11); (lit "y", VInt 20)].
Proof.
  unfold exec, outcome.
  rewrite (proj1 (proj2 (click_order (proxy 0) s1))
             [(lit "x", VFloat 60); (lit "y", VFloat 40)] [] 0%nat (1%Z, [])
             (lit "http://example/"));
    [|vm_compute; reflexivity..].
  repeat split; vm_compute; reflexivity.
Defined.



(** C7, on the small session: a lookup of several elements through the driver
    proxy, and a lookup of one through an element proxy. *)
Lemma lookups_wrap_results_witness :
  (exists s' rs,
      Driver.find_elements the_driver Driver.By_ID (VStr (lit "q")) s1 = (s', Ok rs)
      /\ Forall2 (wraps the_driver) [e0; e1] rs)
  /\ (exists s' r,
      Element.find_element (proxy 1) Driver.By_ID (VStr (lit "q")) s1 = (s', Ok r)
      /\ wraps the_driver e0 r).
Proof.
  pose proof (lookups_wrap_results (proxy 1) the_driver Driver.By_ID
                (VStr (lit "q")) s1) as (Hone & _ & _ & Hmany & _).
  split.
  - eexists _, _. split; [reflexivity|].
    edestruct Hmany as (s1' & os & Hs & Hw & _); [reflexivity|].
    injection Hs as _ <-. exact Hw.
  - eexists _, _. split; [reflexivity|].
    edestruct Hone as (s1' & o & Hs & Hw & _); [reflexivity|].
    injection Hs as _ <-. exact Hw.
Defined.


(** X4, on the small session: a click and some keys notified in [s1]. *)
Lemma events_keep_their_order_witness :
  current_events
    (recorder (notify_all [Click e0; SendKeys e1 (lit "hi")] s1))
  = Some (VList
      [VDict [(lit "event_type", VStr (lit "click"));
              (lit "location", VDict [(lit "x", VFloat 60); (lit "y", VFloat 40)])];
       VDict [(lit "event_type", VStr (lit "send_keys"));
              (lit "text", VStr (lit "hi"));
              (lit "location", VDict [(lit "x", VFloat 60); (lit "y", VFloat 40)])]]).
Proof.
  pose proof (events_keep_their_order [Click e0; SendKeys e1 (lit "hi")] s1 []
                eq_refl eq_refl) as [Hev _].
  rewrite Hev. vm_compute. reflexivity.
Defined.

(** X5, on the small session: [s1] is closed, then a click is notified. *)
Lemma events_after_close_reach_the_trace_witness :
  trace (recorder (exec close s1))
  = [ [(lit "url", VStr (lit "a")); (lit "recorded_events", VList [])] ]
  /\ trace (recorder (exec (on_click e0) (exec close s1)))
     = [ [(lit "url", VStr (lit "a"));
          (lit "recorded_events",
           VList [VDict [(lit "event_type", VStr (lit "click"));
                         (lit "location",
                          VDict [(lit "x", VFloat 60); (lit "y", VFloat 40)])]])] ].
Proof.
  assert (Hinv : open_page_apart (recorder s1)).
  { split; [split; [constructor|vm_compute; lia]|]. apply not_elem_of_nil. }
  assert (Hloc : outcome (_get_event_location e0) s1
                 = Ok [(lit "x", VFloat 60); (lit "y", VFloat 40)])
    by (vm_compute; reflexivity).
  destruct (events_after_close_reach_the_trace e0 click_event s1 _ [] Hinv eq_refl Hloc)
    as (H1 & H2 & _).
  split; [rewrite H1; reflexivity|].
  unfold on_click. fold click_event. rewrite H2. reflexivity.
Defined.

(** X6, on the small session: [s1] closed twice, and closed and navigated. *)
Lemma close_twice_repeats_the_page_witness :
  let page := [(lit "url", VStr (lit "a")); (lit "recorded_events", VList [])] in
  trace (recorder (exec (close ;;; close) s1)) = [page; page]
  /\ trace (recorder (exec (close ;;; on_navigate_to_url (lit "b")) s1)) = [page; page].
Proof.
  destruct (close_twice_repeats_the_page s1 (lit "b")) as [H1 H2].
  split; [rewrite H1; reflexivity|].
  rewrite H2; [reflexivity| |reflexivity].
  split; [constructor|vm_compute; lia].
Defined.

(** X8, on the small session: a lookup through an element proxy. *)
Lemma lookups_record_nothing_witness :
  recorder (exec (Element.find_element (proxy 1) Driver.By_ID (VStr (lit "q"))) s1)
  = recorder s1.
Proof.
  apply (proj1 (proj2 (proj2 (lookups_record_nothing the_driver (proxy 1) Driver.By_ID
                                (VStr (lit "q")) s1)))).
  reflexivity.
Defined.


(** X11, on the session with stale elements: a click notified for the stale
    element [5], and one for element [4], whose size has no width. *)
Lemma event_location_errors_witness :
  @on_click host Flaky.selenium Flaky.e5 s1
  = (s1, Raise (WebDriverException "stale element reference"))
  /\ @on_click host Flaky.selenium Flaky.e4 s1 = (s1, Raise (KeyError (lit "width"))).
Proof.
  split.
  - apply (proj1 (@event_location_errors host Flaky.selenium Flaky.e5 click_event s1)).
    reflexivity.
  - apply (proj1 (proj2 (proj2 (proj2
             (@event_location_errors host Flaky.selenium Flaky.e4 click_event s1))))
             [(lit "x", VInt 10); (lit "y", VInt 20)] [(lit "height", VInt 40)]
             (VInt 10)); reflexivity.
Defined.

(** X12, on the small session: the location of element [0] in [s1]. *)
Lemma event_location_is_two_floats_witness :
  outcome (_get_event_location e0) s1
  = Ok [(lit "x", VFloat 60); (lit "y", VFloat 40)]
  /\ exists fx fy,
       [(lit "x", VFloat 60); (lit "y", VFloat 40)]
       = [(lit "x", VFloat fx); (lit "y", VFloat fy)].
Proof.
  assert (Hloc : outcome (_get_event_location e0) s1
                 = Ok [(lit "x", VFloat 60); (lit "y", VFloat 40)])
    by (vm_compute; reflexivity).
  split; [exact Hloc|].
  destruct (event_location_is_two_floats e0 s1 _ Hloc) as (fx & fy & Heq & _).
  eauto.
Defined.




(** X18, on the two proxies: [text] read and set on the element proxy, which
    has an attribute [text] of its own. *)
Lemma element_properties_read_through_witness :
  let h' := exec (Props.Element.set_properties 0) PropToy.h0 in
  Props.getattr PropToy.builtin 1 h' 0 "text" = Ok (Props.Plain (VStr (lit "hello")))
  /\ Props.setattr PropToy.builtin 0 0 "text" (Props.Plain VNone) h'
     = (h', Raise (AttributeError "text")).
Proof.
  intros h'.
  destruct (element_properties_read_through PropToy.builtin 0 1 PropToy.h0 "text" 0
              (Props.Plain VNone))
    as (_ & Hget & Hset & _).
  - unfold Props.Element._READONLY_PROPERTIES. repeat constructor.
  - vm_compute. reflexivity.
  - vm_compute. reflexivity.
  - fold h' in Hget, Hset. split; [|exact Hset].
    rewrite Hget. vm_compute. reflexivity.
Defined.





(** X2, on the small session: a click before any navigation, then two
    navigations with a click in between. *)
Lemma pages_follow_navigations_witness :
  let r :=
    recorder (notify_all [Click e0; Navigate (lit "a"); Click e0; Navigate (lit "b")]
                (exec (start tt) s0)) in
  List.map page_url (trace r ++ [current_page r])
  = [Some (VStr (lit "a")); Some (VStr (lit "b"))]
  /\ length (trace r) = 1.
Proof.
  apply (proj2 (@pages_follow_navigations host selenium tt
                  [Click e0; Navigate (lit "a"); Click e0; Navigate (lit "b")] s0)).
  discriminate.
Defined.
